(** * st2common.models.db.auth: identity and credential records

    A shallow embedding of [st2common/models/db/auth.py] (UserDB, TokenDB,
    SSORequestDB, ApiKeyDB) and the properties of its records.

    Layout of the development:
    - [Py]: the fragment of the Python object store the module works on
      (dictionaries and lists living in a heap, immutable atoms) together
      with [copy.deepcopy] and item assignment;
    - [Schema]: field declarations as they are written in the class bodies;
    - one module per document class;
    - [Store]: well-formed stores, what a finished copy is, the content of a
      value;
    - sample data;
    - [PyFacts] and [MaskFacts]: [copy.deepcopy] and [mask_secrets] proved
      against their contracts;
    - the properties of the records. *)

From stdpp Require Import gmap strings list fin_maps.
From Stdlib Require Import ZArith.

Local Open Scope Z_scope.
Local Open Scope string_scope.
Local Open Scope list_scope.
Local Open Scope nat_scope.

(* ===================================================================== *)
(** ** Python values and the object store                                 *)
(* ===================================================================== *)

Module Py.

(** Addresses of mutable containers ([id(x)]). *)
Abbreviation addr := nat.

(** A value is an immutable atom or a reference to a container. *)
Inductive pyval : Type :=
| VNone
| VBool (b : bool)
| VInt (z : Z)
| VStr (s : string)
| VRef (a : addr).

(** Containers: [dict] with string keys and [list]. *)
Inductive pyobj : Type :=
| ODict (d : gmap string pyval)
| OList (l : list pyval).

(** The store: the container at address [a] is the [a]-th element;
    allocation appends. *)
Abbreviation heap := (list pyobj).

(** [memo] of [copy.deepcopy]: [id(x)] to the copy [y]. *)
Abbreviation memo_t := (gmap addr addr).

Global Instance pyval_eq_dec : EqDecision pyval.
Proof. solve_decision. Defined.

(** [target[key] = v]; [None] stands for the [TypeError] Python raises
    when [target] is not a dictionary. *)
Definition setitem (target : pyval) (key : string) (v : pyval) (h : heap)
  : option heap :=
  match target with
  | VRef a =>
      match h !! a with
      | Some (ODict d) => Some (<[a := ODict (<[key := v]> d)]> h)
      | _ => None
      end
  | _ => None
  end.

(** [target.append(v)]. *)
Definition append (target : pyval) (v : pyval) (h : heap) : option heap :=
  match target with
  | VRef a =>
      match h !! a with
      | Some (OList l) => Some (<[a := OList (l ++ [v])]> h)
      | _ => None
      end
  | _ => None
  end.

(** [target[key]] for a dictionary, [None] when it is absent. *)
Definition getitem (target : pyval) (key : string) (h : heap) : option pyval :=
  match target with
  | VRef a =>
      match h !! a with
      | Some (ODict d) => d !! key
      | _ => None
      end
  | _ => None
  end.

Section copiers.
(** The recursive entry point, as [_deepcopy_dict] and [_deepcopy_list]
    receive it ([deepcopy=deepcopy]). *)
Variable deepcopy : pyval → memo_t → heap → option (pyval * memo_t * heap).

(** [for key, value in x.items(): y[deepcopy(key, memo)] = deepcopy(value, memo)];
    keys are strings, which [deepcopy] returns as they are. *)
Fixpoint deepcopy_dict_items (y : addr) (items : list (string * pyval))
    (memo : memo_t) (h : heap) : option (memo_t * heap) :=
  match items with
  | [] => Some (memo, h)
  | (key, value) :: rest =>
      '(v, memo1, h1) ← deepcopy value memo h;
      h2 ← setitem (VRef y) key v h1;
      deepcopy_dict_items y rest memo1 h2
  end.

(** [for a in x: append(deepcopy(a, memo))]. *)
Fixpoint deepcopy_list_items (y : addr) (items : list pyval)
    (memo : memo_t) (h : heap) : option (memo_t * heap) :=
  match items with
  | [] => Some (memo, h)
  | value :: rest =>
      '(v, memo1, h1) ← deepcopy value memo h;
      h2 ← append (VRef y) v h1;
      deepcopy_list_items y rest memo1 h2
  end.
End copiers.

(** [copy.deepcopy(x, memo)]. Atoms are their own copy; for a container
    the memo is consulted first, otherwise an empty container [y] is
    allocated, registered in the memo and filled. [fuel] bounds the
    nesting depth of the recursion; a dangling reference gives [None]. *)
Fixpoint deepcopy_memo (fuel : nat) (x : pyval) (memo : memo_t) (h : heap)
  : option (pyval * memo_t * heap) :=
  match fuel with
  | O => None
  | S n =>
      match x with
      | VRef a =>
          match memo !! a with
          | Some y => Some (VRef y, memo, h)
          | None =>
              match h !! a with
              | Some (ODict d) =>
                  let y := length h in
                  '(memo', h') ← deepcopy_dict_items (deepcopy_memo n) y
                                   (map_to_list d) (<[a := y]> memo) (h ++ [ODict ∅]);
                  Some (VRef y, memo', h')
              | Some (OList l) =>
                  let y := length h in
                  '(memo', h') ← deepcopy_list_items (deepcopy_memo n) y
                                   l (<[a := y]> memo) (h ++ [OList []]);
                  Some (VRef y, memo', h')
              | None => None
              end
          end
      | _ => Some (x, memo, h)
      end
  end.

(** [copy.deepcopy(x)]: a fresh memo. The recursion never nests deeper
    than the number of containers in the store (each level registers a
    new one in the memo), see [PyFacts.deepcopy_correct]. *)
Definition deepcopy (x : pyval) (h : heap) : option (pyval * heap) :=
  '(y, _, h') ← deepcopy_memo (S (length h)) x ∅ h;
  Some (y, h').

End Py.

Import Py.

(* ===================================================================== *)
(** ** Outcomes and field declarations                                    *)
(* ===================================================================== *)

(** Exceptions the records raise. *)
Inductive exn : Type :=
| ValidationError (missing : list string)
| TypeError.

(** A call returns or raises. *)
Inductive result (A : Type) : Type :=
| Ok (a : A)
| Raise (e : exn).
Arguments Ok {A} a.
Arguments Raise {A} e.

Global Instance exn_eq_dec : EqDecision exn.
Proof. solve_decision. Defined.

(** Timestamps: microseconds since the epoch, UTC. *)
Abbreviation datetime := Z.

Module Schema.

Inductive field_kind : Type :=
| StringField | BooleanField | DictField | DateTimeField
| ComplexDateTimeField | EnumField.

(** One field declaration of a document class. A keyword the declaration
    leaves out ([required], [unique], [default]) is recorded as [false]. *)
Record field : Type := Field {
  fname : string;
  kind : field_kind;
  required : bool;
  unique : bool;
  has_default : bool
}.

(** A string value that is there and not the empty string. *)
Definition nonempty (s : option string) : bool :=
  match s with
  | Some s => negb (String.eqb s "")
  | None => false
  end.

(** Fields on which the store is asked to enforce uniqueness. *)
Definition unique_fields (fields : list field) : list string :=
  fname <$> filter (λ f, unique f = true) fields.

Definition required_fields (fields : list field) : list string :=
  fname <$> filter (λ f, required f = true) fields.

(** Required fields that have no value. *)
Definition missing_required (fields : list field) (present : string → bool)
  : list string :=
  filter (λ n, present n = false) (required_fields fields).

(** Modelled from the spec: the validation of the record base (the
    constructor auth.py inherits from [stormbase.StormFoundationDB] is not
    part of the sources): a record with a required field missing is
    refused with a [ValidationError], at construction. *)
Definition validate {A} (fields : list field) (present : A → string → bool)
    (self : A) : result A :=
  match missing_required fields (present self) with
  | [] => Ok self
  | missing => Raise (ValidationError missing)
  end.

End Schema.

Import Schema.

(* ===================================================================== *)
(** ** The document classes                                               *)
(* ===================================================================== *)

(** Modelled from the spec: [ResourceType.API_KEY] of
    [st2common.constants.types], which is not part of the sources; the
    spec names the namespace ["api_key"]. *)
Module ResourceType.
Definition API_KEY : string := "api_key".
End ResourceType.

Module UserDB.

Record t : Type := mk {
  name : option string;
  is_service : option bool;
  nicknames : option (gmap string string)
}.

Definition fields : list field := [
  Field "name" StringField true true false;
  Field "is_service" BooleanField true false true;
  Field "nicknames" DictField false false false
].

(** The RBAC collaborator, reached through [get_rbac_backend()]. Calls
    into it may read and change the world [W] outside this module and may
    raise an error of type [E]. *)
Section rbac.
Context {W E RoleDB : Type}.

Definition M (A : Type) : Type := W → (E + A) * W.

Definition ret {A} (a : A) : M A := λ w, (inr a, w).

Definition bind {A B} (m : M A) (k : A → M B) : M B :=
  λ w, match m w with
       | (inr a, w') => k a w'
       | (inl e, w') => (inl e, w')
       end.

(** The service class of a backend. *)
Record RBACService : Type := {
  get_roles_for_user : t → bool → M (list RoleDB)
}.

Record RBACBackend : Type := {
  get_service_class : M RBACService
}.

Variable get_rbac_backend : M RBACBackend.

(** [get_permission_assignments(self)]: [pass]. *)
Definition get_permission_assignments (self : t) : pyval := VNone.

(** [get_roles(self, include_remote=True)]. *)
Definition get_roles (self : t) (include_remote : option bool) : M (list RoleDB) :=
  let include_remote := default true include_remote in
  bind get_rbac_backend (λ backend,
  bind (get_service_class backend) (λ rbac_service,
  bind (get_roles_for_user rbac_service self include_remote) (λ result,
  ret result))).

End rbac.

End UserDB.

Module TokenDB.

Record t : Type := mk {
  user : option string;
  token : option string;
  expiry : option datetime;
  metadata : option (gmap string string);
  service : option bool
}.

Definition fields : list field := [
  Field "user" StringField true false false;
  Field "token" StringField true true false;
  Field "expiry" DateTimeField true false false;
  Field "metadata" DictField false false false;
  Field "service" BooleanField true false true
].

Definition present (self : t) (f : string) : bool :=
  if decide (f = "user") then bool_decide (is_Some (user self))
  else if decide (f = "token") then bool_decide (is_Some (token self))
  else if decide (f = "expiry") then bool_decide (is_Some (expiry self))
  else if decide (f = "metadata") then bool_decide (is_Some (metadata self))
  else if decide (f = "service") then bool_decide (is_Some (service self))
  else false.

(** The declared defaults: [service] is [False] unless given. *)
Definition with_defaults (values : t) : t :=
  {| user := user values;
     token := token values;
     expiry := expiry values;
     metadata := metadata values;
     service := Some (default false (service values)) |}.

(** Modelled from the spec: the constructor [TokenDB] inherits (from
    [stormbase.StormFoundationDB], not part of the sources), called with
    the keyword arguments [values]: the declared defaults are filled in
    and the record is validated. *)
Definition construct (values : t) : result t :=
  validate fields present (with_defaults values).

(** Modelled from the spec: [is_expired()], which auth.py does not define
    on the record: a record is considered expired iff [now() >= expiry],
    evaluated in UTC; [now] is the current UTC time. A record without an
    expiry has no answer. *)
Definition is_expired (self : t) (now : datetime) : option bool :=
  e ← expiry self; Some (now >=? e)%Z.

End TokenDB.

Module SSORequestDB.

(** [class Type(Enum)]. *)
Inductive Type_ : Type := CLI | WEB.

Definition Type_value (ty : Type_) : string :=
  match ty with CLI => "cli" | WEB => "web" end.

Global Instance Type_eq_dec : EqDecision Type_.
Proof. solve_decision. Defined.

Record t : Type := mk {
  request_id : option string;
  key : option string;
  expiry : option datetime;
  type : option Type_
}.

Definition fields : list field := [
  Field "request_id" StringField true false false;
  Field "key" StringField false false false;
  Field "expiry" DateTimeField true false false;
  Field "type" EnumField true false false
].

Definition present (self : t) (f : string) : bool :=
  if decide (f = "request_id") then bool_decide (is_Some (request_id self))
  else if decide (f = "key") then bool_decide (is_Some (key self))
  else if decide (f = "expiry") then bool_decide (is_Some (expiry self))
  else if decide (f = "type") then bool_decide (is_Some (type self))
  else false.

(** Modelled from the spec: the constructor [SSORequestDB] inherits (from
    [stormbase.StormFoundationDB], not part of the sources), called with
    the keyword arguments [values]: no field has a default, the record is
    validated. *)
Definition construct (values : t) : result t :=
  validate fields present values.

(** A key that is there and not the empty string. *)
Definition populated (k : option string) : bool := nonempty k.

(** Modelled from the spec: [is_expired()], which auth.py does not define
    on the record; the semantics is that of the Token's. *)
Definition is_expired (self : t) (now : datetime) : option bool :=
  e ← expiry self; Some (now >=? e)%Z.

End SSORequestDB.

Module ApiKeyDB.

Record t : Type := mk {
  user : option string;
  key_hash : option string;
  metadata : option (gmap string string);
  created_at : option datetime;
  enabled : option bool;
  uid : option string
}.

Definition RESOURCE_TYPE : string := ResourceType.API_KEY.
Definition UID_FIELDS : list string := ["key_hash"].

Definition fields : list field := [
  Field "user" StringField true false false;
  Field "key_hash" StringField true true false;
  Field "metadata" DictField false false false;
  Field "created_at" ComplexDateTimeField false false true;
  Field "enabled" BooleanField true false true
].

(** [meta = {"indexes": [...]}]: the field list of each index. *)
Definition meta_indexes : list (list string) := [ ["user"]; ["key_hash"] ].

(** The spec counts an empty [user] or [key_hash] as missing. *)
Definition present (self : t) (f : string) : bool :=
  if decide (f = "user") then nonempty (user self)
  else if decide (f = "key_hash") then nonempty (key_hash self)
  else if decide (f = "metadata") then bool_decide (is_Some (metadata self))
  else if decide (f = "created_at") then bool_decide (is_Some (created_at self))
  else if decide (f = "enabled") then bool_decide (is_Some (enabled self))
  else if decide (f = "uid") then bool_decide (is_Some (uid self))
  else false.

(** [getattr(self, field, None)] for the string attributes. *)
Definition getattr (self : t) (f : string) : option string :=
  if decide (f = "user") then user self
  else if decide (f = "key_hash") then key_hash self
  else if decide (f = "uid") then uid self
  else None.

(** The declared defaults: [created_at] is the current time, [enabled] is
    [True]. *)
Definition with_defaults (now : datetime) (values : t) : t :=
  {| user := user values;
     key_hash := key_hash values;
     metadata := metadata values;
     created_at := Some (default now (created_at values));
     enabled := Some (default true (enabled values));
     uid := uid values |}.

Definition set_uid (self : t) (u : string) : t :=
  {| user := user self;
     key_hash := key_hash self;
     metadata := metadata self;
     created_at := created_at self;
     enabled := enabled self;
     uid := Some u |}.

(** Modelled from the spec: the constructor [ApiKeyDB] inherits (from
    [stormbase.StormFoundationDB], not part of the sources), called with
    the keyword arguments [values]: the declared defaults are filled in,
    [now] being the clock the [created_at] default reads, and the record
    is validated. *)
Definition super__init__ (now : datetime) (values : t) : result t :=
  validate fields present (with_defaults now values).

Section uid.
(** The derivation of a uid from the resource type and the values of the
    uid fields; the spec leaves it open. *)
Variable derive_uid : string → list (option string) → string.

(** Modelled from the spec: [get_uid] of [stormbase.UIDFieldMixin], which
    is not part of the sources: [derive_uid(resource_type, key_hash)], a
    deterministic function of the class's [RESOURCE_TYPE] and the values
    of its [UID_FIELDS]. *)
Definition get_uid (self : t) : string :=
  derive_uid RESOURCE_TYPE (getattr self <$> UID_FIELDS).

(** [__init__] with the keyword arguments [values]: the inherited
    constructor, then [self.uid = self.get_uid()]. *)
Definition __init__ (now : datetime) (values : t) : result t :=
  match super__init__ now values with
  | Ok self => Ok (set_uid self (get_uid self))
  | Raise e => Raise e
  end.
End uid.

Section secrets.
(** [MASKED_ATTRIBUTE_VALUE] of [st2common.constants.secrets], which is
    not part of the sources: the one masking sentinel. *)
Variable MASKED_ATTRIBUTE_VALUE : string.

(** [mask_secrets(self, value)]. The outer [option] is [None] only when
    [value] holds a dangling reference, which no Python store has. *)
Definition mask_secrets (self : t) (value : pyval) (h : heap)
  : option (result pyval * heap) :=
  '(result, h1) ← deepcopy value h;
  match setitem result "key_hash" (VStr MASKED_ATTRIBUTE_VALUE) h1 with
  | None => Some (Raise TypeError, h1)
  | Some h2 =>
      match setitem result "uid" (VStr MASKED_ATTRIBUTE_VALUE) h2 with
      | None => Some (Raise TypeError, h2)
      | Some h3 => Some (Ok result, h3)
      end
  end.
End secrets.

End ApiKeyDB.

(** [MODELS]: the classes of the module, by their declarations. *)
Definition MODELS : list (string * list field) := [
  ("UserDB", UserDB.fields);
  ("TokenDB", TokenDB.fields);
  ("ApiKeyDB", ApiKeyDB.fields);
  ("SSORequestDB", SSORequestDB.fields)
].

(** Every uniqueness constraint the module declares, as class and field. *)
Definition unique_constraints (models : list (string * list field))
  : list (string * string) :=
  models ≫= λ '(cls, fields), (λ f, (cls, f)) <$> unique_fields fields.

(* ===================================================================== *)
(** ** The store: well-formedness, copies and content                     *)
(* ===================================================================== *)

Module Store.

(** References below [n]. *)
Definition val_ok (n : nat) (v : pyval) : Prop :=
  match v with VRef a => a < n | _ => True end.

Definition obj_ok (n : nat) (o : pyobj) : Prop :=
  match o with
  | ODict d => map_Forall (λ _, val_ok n) d
  | OList l => Forall (val_ok n) l
  end.

(** A store without dangling references. *)
Definition heap_ok (h : heap) : Prop := Forall (obj_ok (length h)) h.

Global Instance val_ok_dec n v : Decision (val_ok n v).
Proof. destruct v; simpl; apply _. Defined.
Global Instance obj_ok_dec n o : Decision (obj_ok n o).
Proof. destruct o; simpl; apply _. Defined.
Global Instance heap_ok_dec h : Decision (heap_ok h).
Proof. unfold heap_ok; apply _. Defined.

(** The image of a value under the memo. *)
Definition rename (memo : memo_t) (v : pyval) : pyval :=
  match v with
  | VRef a => match memo !! a with Some y => VRef y | None => v end
  | _ => v
  end.

Definition rename_obj (memo : memo_t) (o : pyobj) : pyobj :=
  match o with
  | ODict d => ODict (rename memo <$> d)
  | OList l => OList (rename memo <$> l)
  end.

(** Every reference has a copy registered in the memo. *)
Definition val_in (memo : memo_t) (v : pyval) : Prop :=
  match v with VRef a => is_Some (memo !! a) | _ => True end.

Definition obj_in (memo : memo_t) (o : pyobj) : Prop :=
  match o with
  | ODict d => map_Forall (λ _, val_in memo) d
  | OList l => Forall (val_in memo) l
  end.

(** *** The contract of one [deepcopy] call

    [h0] is the store before the outermost call. A call may run in the
    middle of a copy: the store has grown, and the memo maps containers
    of [h0] to containers allocated since. *)
Section contract.
Variable h0 : heap.

(** The containers of [h0] are where they were. *)
Definition extends (h : heap) : Prop :=
  length h0 ≤ length h ∧ ∀ a, a < length h0 → h !! a = h0 !! a.

(** The memo maps old containers to new ones, each to its own. *)
Definition memo_ok (memo : memo_t) (h : heap) : Prop :=
  (∀ a y, memo !! a = Some y → a < length h0 ∧ length h0 ≤ y < length h)
  ∧ (∀ a b y, memo !! a = Some y → memo !! b = Some y → a = b).

(** [y] holds the finished copy of [a]: the image of [a]'s content. *)
Definition copied (memo : memo_t) (h : heap) (a y : addr) : Prop :=
  ∃ o, h0 !! a = Some o ∧ obj_in memo o ∧ h !! y = Some (rename_obj memo o).

Record copy_post (memo : memo_t) (h : heap) (memo' : memo_t) (h' : heap) : Prop :=
  CopyPost {
    post_length : length h ≤ length h';
    post_sub : memo ⊆ memo';
    post_memo : memo_ok memo' h';
    post_new : ∀ a y, memo' !! a = Some y → memo !! a = None →
                      length h ≤ y ∧ copied memo' h' a y
  }.

Definition copy_spec
    (rec : pyval → memo_t → heap → option (pyval * memo_t * heap)) : Prop :=
  ∀ x memo h v memo' h',
    rec x memo h = Some (v, memo', h') →
    val_ok (length h0) x → memo_ok memo h → extends h →
    copy_post memo h memo' h'
    ∧ (∀ a, a < length h → h' !! a = h !! a)
    ∧ val_in memo' x
    ∧ v = rename memo' x.

(** [rec] returns whenever fewer than [n] containers remain to be
    registered. *)
Definition copy_total (n : nat)
    (rec : pyval → memo_t → heap → option (pyval * memo_t * heap)) : Prop :=
  ∀ x memo h,
    val_ok (length h0) x → memo_ok memo h → extends h →
    length h0 - size memo < n →
    is_Some (rec x memo h).

End contract.

(** *** The outcome of a whole [deepcopy]

    [h'] extends [h], and [memo] is an isomorphism from the containers of
    [h] under [x] onto containers allocated by the copy. *)
Record is_copy (h : heap) (memo : memo_t) (h' : heap) : Prop := IsCopy {
  copy_length : length h ≤ length h';
  copy_frame : ∀ a, a < length h → h' !! a = h !! a;
  copy_fresh : ∀ a y, memo !! a = Some y → a < length h ∧ length h ≤ y < length h';
  copy_inj : ∀ a b y, memo !! a = Some y → memo !! b = Some y → a = b;
  copy_image : ∀ a y, memo !! a = Some y →
               ∃ o, h !! a = Some o ∧ obj_in memo o ∧ h' !! y = Some (rename_obj memo o)
}.

(** *** Reachability in the store *)
Inductive reach (h : heap) : pyval → addr → Prop :=
| reach_here a : reach h (VRef a) a
| reach_dict a d k v c :
    h !! a = Some (ODict d) → d !! k = Some v → reach h v c → reach h (VRef a) c
| reach_list a l i v c :
    h !! a = Some (OList l) → l !! i = Some v → reach h v c → reach h (VRef a) c.

(** *** The content of a value: what serialising it would write *)
#[warnings="-register-all"]
Inductive tree : Type :=
| TNone
| TBool (b : bool)
| TInt (z : Z)
| TStr (s : string)
| TDict (d : gmap string tree)
| TList (l : list tree).

(** All-or-nothing traversal of the values of a dictionary. *)
Definition map_mapM {A B} (f : A → option B) (m : gmap string A)
  : option (gmap string B) :=
  if decide (map_Forall (λ _ v, is_Some (f v)) m) then Some (omap f m) else None.

(** Reading a value out of the store; [fuel] bounds the nesting of
    containers, atoms need none. A cyclic value has no content. *)
Fixpoint reify (fuel : nat) (h : heap) (v : pyval) : option tree :=
  match v with
  | VNone => Some TNone
  | VBool b => Some (TBool b)
  | VInt z => Some (TInt z)
  | VStr s => Some (TStr s)
  | VRef a =>
      match fuel with
      | O => None
      | S n =>
          match h !! a with
          | Some (ODict d) => TDict <$> map_mapM (reify n h) d
          | Some (OList l) => TList <$> mapM (reify n h) l
          | None => None
          end
      end
  end.

End Store.

Import Store.

(* ===================================================================== *)
(** ** Sample data and the stated properties                              *)
(* ===================================================================== *)

(** The two fields the method assigns. *)
Definition masked (S : string) (d : gmap string pyval) : gmap string pyval :=
  <["uid" := VStr S]> (<["key_hash" := VStr S]> d).

(** The key of the spec's scenario: user alice, key hash h1. *)
Definition alice_key : ApiKeyDB.t :=
  {| ApiKeyDB.user := Some "alice";
     ApiKeyDB.key_hash := Some "h1";
     ApiKeyDB.metadata := Some {[ "team" := "ops" ]};
     ApiKeyDB.created_at := Some 1700000000000000%Z;
     ApiKeyDB.enabled := Some true;
     ApiKeyDB.uid := Some "api_key:h1" |}.

(** Its exported representation, with the metadata as a nested dictionary
    and a list inside. *)
Definition alice_export : heap :=
  [ ODict {[ "user" := VStr "alice"; "key_hash" := VStr "h1";
             "uid" := VStr "api_key:h1"; "enabled" := VBool true;
             "metadata" := VRef 1 ]};
    ODict {[ "team" := VStr "ops"; "tags" := VRef 2 ]};
    OList [ VStr "a"; VStr "b" ] ].

(** A partial representation: no field at all. *)
Definition empty_export : heap := [ ODict ∅ ].

(** A key whose hash is the very string used as the sentinel. *)
Definition starred_export : heap :=
  [ ODict {[ "user" := VStr "alice"; "key_hash" := VStr "***";
             "uid" := VStr "api_key:***" ]} ].

(** The two secret fields of [out] hold the sentinel. *)
Definition sentinel_fields (S : string) (out : pyval) (h' : heap) : Prop :=
  getitem out "key_hash" h' = Some (VStr S) ∧ getitem out "uid" h' = Some (VStr S).

(** No secret field of [out] holds what [value] holds there. *)
Definition literals_gone (value : pyval) (h : heap) (out : pyval) (h' : heap) : Prop :=
  ∀ k v, k ∈ ["key_hash"; "uid"] → getitem value k h = Some v →
         getitem out k h' ≠ Some v.

(** The invariant C3 states: the key is populated exactly for type cli. *)
Definition key_iff_cli (self : SSORequestDB.t) : Prop :=
  SSORequestDB.populated (SSORequestDB.key self) = true
  ↔ SSORequestDB.type self = Some SSORequestDB.CLI.

(** A web request that carries a key. *)
Definition web_with_key : SSORequestDB.t :=
  SSORequestDB.mk (Some "req-1") (Some "0123456789abcdef")
                  (Some 1700000000000000%Z) (Some SSORequestDB.WEB).

(** A cli request with its key. *)
Definition cli_with_key : SSORequestDB.t :=
  SSORequestDB.mk (Some "req-2") (Some "0123456789abcdef")
                  (Some 1700000000000000%Z) (Some SSORequestDB.CLI).

(** The keyword arguments [values] with [uid] given as [u]. *)
Definition with_uid (values : ApiKeyDB.t) (u : option string) : ApiKeyDB.t :=
  {| ApiKeyDB.user := ApiKeyDB.user values;
     ApiKeyDB.key_hash := ApiKeyDB.key_hash values;
     ApiKeyDB.metadata := ApiKeyDB.metadata values;
     ApiKeyDB.created_at := ApiKeyDB.created_at values;
     ApiKeyDB.enabled := ApiKeyDB.enabled values;
     ApiKeyDB.uid := u |}.

(** A sample derivation: the parts joined with a colon. *)
Definition join_uid (resource_type : string) (parts : list (option string)) : string :=
  String.concat ":" (resource_type :: (default "" <$> parts)).

(** A user and a backend stub: the stub answers with its local roles,
    followed by the remote ones when asked for them, and logs each call
    with the arguments it received. *)
Definition alice : UserDB.t := UserDB.mk (Some "alice") (Some false) None.

Definition stub_service
  : @UserDB.RBACService (list (UserDB.t * bool)) string string :=
  {| UserDB.get_roles_for_user := λ user_db include_remote log,
       (inr (if include_remote
             then ["admin"; "observer"; "remote_auditor"]
             else ["admin"; "observer"]),
        log ++ [(user_db, include_remote)]) |}.

Definition stub_backend
  : @UserDB.RBACBackend (list (UserDB.t * bool)) string string :=
  {| UserDB.get_service_class := UserDB.ret stub_service |}.

(** [get_rbac_backend()] with the stub configured. *)
Definition get_stub_backend
  : @UserDB.M (list (UserDB.t * bool)) string
      (@UserDB.RBACBackend (list (UserDB.t * bool)) string string) :=
  UserDB.ret stub_backend.

(** A backend whose store of assignments is the world itself, and a grant
    that changes the store from outside. *)
Definition store_service : @UserDB.RBACService (list string) string string :=
  {| UserDB.get_roles_for_user := λ _ _ store, (inr store, store) |}.

Definition store_backend : @UserDB.RBACBackend (list string) string string :=
  {| UserDB.get_service_class := UserDB.ret store_service |}.

Definition get_store_backend
  : @UserDB.M (list string) string (@UserDB.RBACBackend (list string) string string) :=
  UserDB.ret store_backend.

Definition grant (role : string) : @UserDB.M (list string) string unit :=
  λ store, (inr tt, store ++ [role]).

(** *** Further notions *)

(** Every container allocated since [h0] is the copy of a container. *)
Definition memo_onto (h0 : heap) (memo : memo_t) (h : heap) : Prop :=
  ∀ y, length h0 ≤ y < length h → ∃ a, memo !! a = Some y.

(** The content of a masked representation. *)
Definition masked_tree (S : string) (td : gmap string tree) : gmap string tree :=
  <["uid" := TStr S]> (<["key_hash" := TStr S]> td).

(** A value that is a dictionary of the store. *)
Definition is_dict (value : pyval) (h : heap) : bool :=
  match value with
  | VRef a => match h !! a with Some (ODict _) => true | _ => false end
  | _ => false
  end.

(** A representation two fields of which share one list, a third holds
    another list of the same content, and a fourth holds the
    representation itself. *)
Definition shared_export : heap :=
  [ ODict {[ "first" := VRef 1; "second" := VRef 1; "other" := VRef 2;
             "self" := VRef 0 ]};
    OList [ VStr "x" ];
    OList [ VStr "x" ] ].

(** A representation that keeps a second key under [previous]. *)
Definition nested_export : heap :=
  [ ODict {[ "user" := VStr "alice"; "key_hash" := VStr "h2";
             "uid" := VStr "api_key:h2"; "previous" := VRef 1 ]};
    ODict {[ "key_hash" := VStr "h1"; "uid" := VStr "api_key:h1" ]} ].

(** The export of another key of alice, with the same public fields, laid
    out differently in its store. *)
Definition alice_second_export : heap :=
  [ OList [ VStr "a"; VStr "b" ];
    ODict {[ "team" := VStr "ops"; "tags" := VRef 0 ]};
    ODict {[ "user" := VStr "alice"; "key_hash" := VStr "h2";
             "uid" := VStr "api_key:h2"; "enabled" := VBool true;
             "metadata" := VRef 1 ]} ].

(** The content the two exports share. *)
Definition alice_public : gmap string tree :=
  {[ "user" := TStr "alice"; "enabled" := TBool true;
     "metadata" := TDict {[ "team" := TStr "ops";
                            "tags" := TList [ TStr "a"; TStr "b" ] ]} ]}.

(** [Type(value)], the member of the enumeration with the given value;
    [None] stands for the [ValueError] of a value no member has. *)
Definition Type_of_value (value : string) : option SSORequestDB.Type_ :=
  if decide (value = SSORequestDB.Type_value SSORequestDB.CLI) then Some SSORequestDB.CLI
  else if decide (value = SSORequestDB.Type_value SSORequestDB.WEB) then Some SSORequestDB.WEB
  else None.

Global Instance field_kind_eq_dec : EqDecision field_kind.
Proof. solve_decision. Defined.

(** The names a class declares. *)
Definition declared (fields : list field) (n : string) : Prop :=
  n ∈ fname <$> fields.

(** Declarations that fit together: no field name twice, uniqueness asked
    only of required fields, a default for every required flag. *)
Definition well_declared (fields : list field) : Prop :=
  NoDup (fname <$> fields)
  ∧ Forall (λ f, unique f = true → required f = true) fields
  ∧ Forall (λ f, kind f = BooleanField → required f = true → has_default f = true)
           fields.

(** The two calls of the scenario in sequence, both answers returned. *)
Definition get_roles_twice {W E RoleDB : Type}
    (get_rbac_backend : @UserDB.M W E (@UserDB.RBACBackend W E RoleDB))
    (self : UserDB.t) (first second : option bool)
  : @UserDB.M W E (list RoleDB * list RoleDB) :=
  UserDB.bind (UserDB.get_roles get_rbac_backend self first) (λ r1,
  UserDB.bind (UserDB.get_roles get_rbac_backend self second) (λ r2,
  UserDB.ret (r1, r2))).

(* ===================================================================== *)
(** ** Facts about the store and [copy.deepcopy]                          *)
(* ===================================================================== *)

Module PyFacts.

Lemma rename_mono memo memo' v :
  memo ⊆ memo' → val_in memo v → rename memo' v = rename memo v.
Proof.
  intros Hsub Hin. destruct v as [| | | |a]; simpl in *; try done.
  destruct Hin as [y Hy]. rewrite Hy.
  by rewrite (lookup_weaken _ _ _ _ Hy Hsub).
Qed.

Lemma val_in_mono memo memo' v : memo ⊆ memo' → val_in memo v → val_in memo' v.
Proof.
  intros Hsub Hin. destruct v as [| | | |a]; simpl in *; try done.
  destruct Hin as [y Hy]. exists y. by eapply lookup_weaken.
Qed.

Lemma obj_in_mono memo memo' o : memo ⊆ memo' → obj_in memo o → obj_in memo' o.
Proof.
  intros Hsub. destruct o as [d|l]; simpl.
  - intros H k v Hk. eapply val_in_mono; [done|]. exact (H k v Hk).
  - intros H. eapply Forall_impl; [exact H|]. intros v. by apply val_in_mono.
Qed.

Lemma rename_obj_mono memo memo' o :
  memo ⊆ memo' → obj_in memo o → rename_obj memo' o = rename_obj memo o.
Proof.
  intros Hsub. destruct o as [d|l]; simpl; intros Hin; f_equal.
  - apply map_eq. intros k. rewrite !lookup_fmap.
    destruct (d !! k) as [v|] eqn:Hk; simpl; [|done].
    f_equal. apply rename_mono; [done|]. exact (Hin k v Hk).
  - apply list_fmap_ext. intros i v Hi. apply rename_mono; [done|].
    rewrite Forall_lookup in Hin. by eapply Hin.
Qed.

Section deepcopy_spec.
Variable h0 : heap.
Hypothesis h0_ok : heap_ok h0.

Local Abbreviation extends := (Store.extends h0).
Local Abbreviation memo_ok := (Store.memo_ok h0).
Local Abbreviation copied := (Store.copied h0).
Local Abbreviation copy_post := (Store.copy_post h0).
Local Abbreviation copy_spec := (Store.copy_spec h0).
Local Abbreviation copy_total := (Store.copy_total h0).

Lemma h0_lookup_ok a o : h0 !! a = Some o → obj_ok (length h0) o.
Proof.
  intros Ha. unfold heap_ok in h0_ok. rewrite Forall_lookup in h0_ok.
  by eapply h0_ok.
Qed.

Lemma memo_ok_length memo h h' :
  memo_ok memo h → length h ≤ length h' → memo_ok memo h'.
Proof.
  intros [Hm Hinj] Hle. split; [|done].
  intros a y Hy. destruct (Hm a y Hy). lia.
Qed.

Lemma memo_ok_alloc memo h a o :
  memo_ok memo h → a < length h0 → length h0 ≤ length h →
  memo_ok (<[a := length h]> memo) (h ++ [o]).
Proof.
  intros [Hm Hinj] Ha Hlen. split.
  - intros a' z Hz. rewrite length_app. simpl.
    destruct (decide (a = a')) as [<-|Hne].
    + rewrite lookup_insert_eq in Hz. injection Hz as <-. lia.
    + rewrite lookup_insert_ne in Hz; [|done].
      destruct (Hm a' z Hz). lia.
  - intros a1 a2 z H1 H2.
    destruct (decide (a = a1)) as [<-|Hne1]; destruct (decide (a = a2)) as [<-|Hne2];
      try done.
    + rewrite lookup_insert_eq in H1. injection H1 as <-.
      rewrite lookup_insert_ne in H2; [|done]. destruct (Hm a2 _ H2). lia.
    + rewrite lookup_insert_eq in H2. injection H2 as <-.
      rewrite lookup_insert_ne in H1; [|done]. destruct (Hm a1 _ H1). lia.
    + rewrite lookup_insert_ne in H1, H2; [|done|done]. by eapply Hinj.
Qed.

Lemma extends_insert_fresh h y o :
  extends h → length h0 ≤ y → extends (<[y := o]> h).
Proof.
  intros [Hlen Hext] Hy. split; [by rewrite length_insert|].
  intros a Ha. rewrite list_lookup_insert_ne; [by apply Hext | lia].
Qed.

Lemma extends_alloc h o : extends h → extends (h ++ [o]).
Proof.
  intros [Hlen Hext]. split; [rewrite length_app; lia|].
  intros a Ha. rewrite lookup_app_l; [by apply Hext | lia].
Qed.

Lemma extends_frame h h' :
  extends h → length h ≤ length h' →
  (∀ a, a < length h → h' !! a = h !! a) → extends h'.
Proof.
  intros [Hlen Hext] Hle Hfr. split; [lia|].
  intros a Ha. rewrite Hfr; [by apply Hext | lia].
Qed.

Lemma copied_later memo h memo' h' a y :
  copied memo h a y → memo ⊆ memo' → h' !! y = h !! y → copied memo' h' a y.
Proof.
  intros (o & Ho & Hin & Hy) Hsub Heq. exists o. split; [done|]. split.
  - by eapply obj_in_mono.
  - rewrite Heq, Hy. f_equal. symmetry. by apply rename_obj_mono.
Qed.

(** The loop over the items of a dictionary under copy. *)
Lemma dict_items_spec rec y :
  copy_spec rec →
  ∀ items memo h memo' h' acc,
    deepcopy_dict_items rec y items memo h = Some (memo', h') →
    (∀ k v, (k, v) ∈ items → val_ok (length h0) v) →
    NoDup items.*1 →
    memo_ok memo h → extends h →
    length h0 ≤ y < length h → h !! y = Some (ODict acc) →
    copy_post memo h memo' h'
    ∧ (∀ a, a < length h → a ≠ y → h' !! a = h !! a)
    ∧ (∀ k v, (k, v) ∈ items → val_in memo' v)
    ∧ ∃ d', h' !! y = Some (ODict d')
            ∧ (∀ k v, (k, v) ∈ items → d' !! k = Some (rename memo' v))
            ∧ (∀ k, k ∉ items.*1 → d' !! k = acc !! k).
Proof.
  intros Hrec. induction items as [|[k v] rest IH];
    intros memo h memo' h' acc Hrun Hvals Hnd Hmemo Hext Hy Hacc.
  - simpl in Hrun. injection Hrun as <- <-. split; [|split; [|split]].
    + split; [lia | done | done |]. intros a z Hz Hn. congruence.
    + done.
    + intros k v Hin. by apply elem_of_nil in Hin.
    + exists acc. split; [done|]. split; [|done].
      intros k v Hin. by apply elem_of_nil in Hin.
  - simpl in Hrun.
    destruct (rec v memo h) as [[[v1 memo1] h1]|] eqn:Hcall; [|done].
    simpl in Hrun.
    destruct (Hrec _ _ _ _ _ _ Hcall) as ([Hlen1 Hsub1 Hmemo1 Hnew1] & Hfr1 & Hin1 & ->);
      [apply (Hvals k v); left | done | done |].
    assert (Hy1 : h1 !! y = Some (ODict acc)) by (rewrite Hfr1; [done | lia]).
    rewrite Hy1 in Hrun. simpl in Hrun.
    set (acc1 := <[k := rename memo1 v]> acc) in *.
    set (h2 := <[y := ODict acc1]> h1) in *.
    assert (Hlen2 : length h2 = length h1) by apply length_insert.
    apply NoDup_cons in Hnd as [Hk Hnd].
    destruct (IH memo1 h2 memo' h' acc1 Hrun) as
      ([Hlen' Hsub' Hmemo' Hnew'] & Hfr' & Hin' & d' & Hd' & Hitems' & Hrest');
      [ intros k' v' Hin; apply (Hvals k' v'); by right
      | done
      | eapply memo_ok_length; [done | lia]
      | apply extends_insert_fresh; [|lia];
        eapply extends_frame; [done | done | done]
      | lia
      | apply list_lookup_insert_eq; lia |].
    assert (Hfr : ∀ a, a < length h → a ≠ y → h' !! a = h !! a).
    { intros a Ha Hne. rewrite Hfr'; [|lia|done].
      unfold h2. rewrite list_lookup_insert_ne; [|done]. by apply Hfr1. }
    split; [|split; [|split]].
    + split; [lia | by etrans | done |].
      intros a z Hz Hn. destruct (memo1 !! a) as [z1|] eqn:Hz1.
      * assert (z1 = z) as ->.
        { pose proof (lookup_weaken _ _ _ _ Hz1 Hsub') as Hw. congruence. }
        destruct (Hnew1 a z Hz1 Hn) as [Hge Hcp]. split; [done|].
        destruct (proj1 Hmemo1 a z Hz1) as [_ [_ Hzlt]].
        eapply copied_later; [exact Hcp | done |].
        rewrite Hfr'; [|lia|lia]. unfold h2.
        rewrite list_lookup_insert_ne; [done | lia].
      * destruct (Hnew' a z Hz Hz1) as [Hge Hcp]. split; [lia | done].
    + done.
    + intros k' v' Hin. apply elem_of_cons in Hin as [[= -> ->]|Hin].
      * by eapply val_in_mono.
      * by eapply Hin'.
    + exists d'. split; [done|]. split.
      * intros k' v' Hin. apply elem_of_cons in Hin as [[= -> ->]|Hin].
        -- rewrite Hrest'; [|done]. unfold acc1. rewrite lookup_insert_eq.
           f_equal. symmetry. by apply rename_mono.
        -- by apply Hitems'.
      * intros k' Hk'. rewrite fmap_cons, not_elem_of_cons in Hk'.
        destruct Hk' as [Hne Hk']. rewrite Hrest'; [|done].
        unfold acc1. by rewrite lookup_insert_ne.
Qed.

(** The loop over the elements of a list under copy. *)
Lemma list_items_spec rec y :
  copy_spec rec →
  ∀ items memo h memo' h' acc,
    deepcopy_list_items rec y items memo h = Some (memo', h') →
    Forall (val_ok (length h0)) items →
    memo_ok memo h → extends h →
    length h0 ≤ y < length h → h !! y = Some (OList acc) →
    copy_post memo h memo' h'
    ∧ (∀ a, a < length h → a ≠ y → h' !! a = h !! a)
    ∧ Forall (val_in memo') items
    ∧ h' !! y = Some (OList (acc ++ (rename memo' <$> items))).
Proof.
  intros Hrec. induction items as [|v rest IH];
    intros memo h memo' h' acc Hrun Hvals Hmemo Hext Hy Hacc.
  - simpl in Hrun. injection Hrun as <- <-. split; [|split; [|split]].
    + split; [lia | done | done |]. intros a z Hz Hn. congruence.
    + done.
    + constructor.
    + by rewrite app_nil_r.
  - simpl in Hrun. apply Forall_cons in Hvals as [Hv Hvals].
    destruct (rec v memo h) as [[[v1 memo1] h1]|] eqn:Hcall; [|done].
    simpl in Hrun.
    destruct (Hrec _ _ _ _ _ _ Hcall) as ([Hlen1 Hsub1 Hmemo1 Hnew1] & Hfr1 & Hin1 & ->);
      [done | done | done |].
    assert (Hy1 : h1 !! y = Some (OList acc)) by (rewrite Hfr1; [done | lia]).
    rewrite Hy1 in Hrun. simpl in Hrun.
    set (acc1 := (acc ++ [rename memo1 v])%list) in *.
    set (h2 := <[y := OList acc1]> h1) in *.
    assert (Hlen2 : length h2 = length h1) by apply length_insert.
    destruct (IH memo1 h2 memo' h' acc1 Hrun) as
      ([Hlen' Hsub' Hmemo' Hnew'] & Hfr' & Hin' & Hd');
      [ done
      | eapply memo_ok_length; [done | lia]
      | apply extends_insert_fresh; [|lia];
        eapply extends_frame; [done | done | done]
      | lia
      | apply list_lookup_insert_eq; lia |].
    assert (Hfr : ∀ a, a < length h → a ≠ y → h' !! a = h !! a).
    { intros a Ha Hne. rewrite Hfr'; [|lia|done].
      unfold h2. rewrite list_lookup_insert_ne; [|done]. by apply Hfr1. }
    split; [|split; [|split]].
    + split; [lia | by etrans | done |].
      intros a z Hz Hn. destruct (memo1 !! a) as [z1|] eqn:Hz1.
      * assert (z1 = z) as ->.
        { pose proof (lookup_weaken _ _ _ _ Hz1 Hsub') as Hw. congruence. }
        destruct (Hnew1 a z Hz1 Hn) as [Hge Hcp]. split; [done|].
        destruct (proj1 Hmemo1 a z Hz1) as [_ [_ Hzlt]].
        eapply copied_later; [exact Hcp | done |].
        rewrite Hfr'; [|lia|lia]. unfold h2.
        rewrite list_lookup_insert_ne; [done | lia].
      * destruct (Hnew' a z Hz Hz1) as [Hge Hcp]. split; [lia | done].
    + done.
    + constructor; [by eapply val_in_mono | done].
    + rewrite Hd'. unfold acc1. rewrite <- app_assoc. simpl.
      by rewrite (rename_mono memo1 memo' v).
Qed.

Lemma copy_post_refl memo h : memo_ok memo h → copy_post memo h memo h.
Proof. intros Hm. split; [lia | done | done |]. intros a y Hy Hn. congruence. Qed.

(** Every call of [deepcopy] meets the contract. *)
Lemma deepcopy_memo_spec n : copy_spec (deepcopy_memo n).
Proof.
  induction n as [|n IH]; intros x memo h v memo' h' Hrun Hx Hmemo Hext; [done|].
  destruct x as [| b | z | s | a]; simpl in Hrun;
    try (injection Hrun as <- <- <-;
         split; [by apply copy_post_refl | split; [done | split; done]]).
  destruct (memo !! a) as [y|] eqn:Hma.
  { injection Hrun as <- <- <-.
    split; [by apply copy_post_refl | split; [done | split]].
    - simpl. by rewrite Hma.
    - simpl. by rewrite Hma. }
  simpl in Hx. destruct Hext as [HlenB Hpre].
  assert (Hext : extends h) by done.
  pose proof (Hpre a Hx) as Ha0.
  set (y := length h) in *.
  assert (Hmemo1 : ∀ o, memo_ok (<[a := y]> memo) (h ++ [o])).
  { intros o. by apply memo_ok_alloc. }
  assert (Hsub1 : memo ⊆ <[a := y]> memo) by by apply insert_subseteq.
  assert (Hy1 : ∀ o, (h ++ [o]) !! y = Some o).
  { intros o. unfold y. by rewrite list_lookup_middle. }
  assert (Hrange : ∀ o, length h0 ≤ y < length (h ++ [o])).
  { intros o. rewrite length_app. simpl. unfold y. lia. }
  destruct (h !! a) as [[d|l]|] eqn:Ha; [| |done]; simpl in Hrun.
  - destruct (deepcopy_dict_items (deepcopy_memo n) y (map_to_list d)
                (<[a := y]> memo) (h ++ [ODict ∅])) as [[m1 h1]|] eqn:Hloop; [|done].
    simpl in Hrun. injection Hrun as <- <- <-.
    destruct (dict_items_spec _ y IH _ _ _ _ _ ∅ Hloop) as
      ([Hlen' Hsub' Hmemo' Hnew'] & Hfr' & Hin' & d' & Hd' & Hitems' & Hrest');
      [ | apply NoDup_fst_map_to_list | apply Hmemo1 | by apply extends_alloc
        | apply Hrange | apply Hy1 | ].
    { intros k v Hkv. apply elem_of_map_to_list in Hkv.
      symmetry in Ha0. exact (h0_lookup_ok a _ Ha0 k v Hkv). }
    assert (Hay : m1 !! a = Some y).
    { eapply lookup_weaken; [|exact Hsub']. apply lookup_insert_eq. }
    rewrite length_app in Hlen'. simpl in Hlen'.
    split; [|split; [|split]].
    + split; [lia | by etrans | done |].
      intros a' z Hz Hn. destruct (decide (a' = a)) as [->|Hne].
      * assert (z = y) as -> by congruence. split; [unfold y; lia|].
        exists (ODict d). split; [done|]. split.
        -- intros k v Hkv. apply (Hin' k v). by apply elem_of_map_to_list.
        -- rewrite Hd'. simpl. do 2 f_equal. apply map_eq. intros k.
           rewrite lookup_fmap. destruct (d !! k) as [v|] eqn:Hk; simpl.
           ++ apply Hitems'. by apply elem_of_map_to_list.
           ++ rewrite Hrest'; [done|]. intros Hk'.
              apply list_elem_of_fmap in Hk' as ([k' v'] & -> & Hk').
              apply elem_of_map_to_list in Hk'. simpl in Hk. congruence.
      * destruct (Hnew' a' z Hz) as [Hge Hcp]; [by rewrite lookup_insert_ne|].
        rewrite length_app in Hge. simpl in Hge. split; [lia | done].
    + intros a' Ha'. rewrite Hfr'; [| rewrite length_app; simpl; lia | unfold y; lia].
      by rewrite lookup_app_l.
    + simpl. by rewrite Hay.
    + simpl. by rewrite Hay.
  - destruct (deepcopy_list_items (deepcopy_memo n) y l
                (<[a := y]> memo) (h ++ [OList []])) as [[m1 h1]|] eqn:Hloop; [|done].
    simpl in Hrun. injection Hrun as <- <- <-.
    destruct (list_items_spec _ y IH _ _ _ _ _ [] Hloop) as
      ([Hlen' Hsub' Hmemo' Hnew'] & Hfr' & Hin' & Hd');
      [ | apply Hmemo1 | by apply extends_alloc | apply Hrange | apply Hy1 | ].
    { symmetry in Ha0. exact (h0_lookup_ok a _ Ha0). }
    assert (Hay : m1 !! a = Some y).
    { eapply lookup_weaken; [|exact Hsub']. apply lookup_insert_eq. }
    rewrite length_app in Hlen'. simpl in Hlen'.
    split; [|split; [|split]].
    + split; [lia | by etrans | done |].
      intros a' z Hz Hn. destruct (decide (a' = a)) as [->|Hne].
      * assert (z = y) as -> by congruence. split; [unfold y; lia|].
        exists (OList l). split; [done|]. split; [done|].
        by rewrite Hd'.
      * destruct (Hnew' a' z Hz) as [Hge Hcp]; [by rewrite lookup_insert_ne|].
        rewrite length_app in Hge. simpl in Hge. split; [lia | done].
    + intros a' Ha'. rewrite Hfr'; [| rewrite length_app; simpl; lia | unfold y; lia].
      by rewrite lookup_app_l.
    + simpl. by rewrite Hay.
    + simpl. by rewrite Hay.
Qed.

(** *** Termination: the memo bounds the nesting depth *)

Lemma memo_ok_size memo h : memo_ok memo h → size memo ≤ length h0.
Proof.
  intros Hm. rewrite <- (size_dom (D:=gset nat)).
  rewrite <- (size_set_seq (C:=gset nat) 0 (length h0)).
  apply subseteq_size. intros a Ha. apply elem_of_dom in Ha as [y Hy].
  apply elem_of_set_seq. destruct (proj1 Hm _ _ Hy). lia.
Qed.

Lemma dict_items_total n rec y :
  copy_spec rec → copy_total n rec →
  ∀ items memo h acc,
    (∀ k v, (k, v) ∈ items → val_ok (length h0) v) →
    memo_ok memo h → extends h →
    length h0 ≤ y < length h → h !! y = Some (ODict acc) →
    length h0 - size memo < n →
    is_Some (deepcopy_dict_items rec y items memo h).
Proof.
  intros Hspec Htot. induction items as [|[k v] rest IH];
    intros memo h acc Hvals Hmemo Hext Hy Hacc Hn; simpl; [done|].
  destruct (Htot v memo h) as [[[v1 memo1] h1] Hcall];
    [apply (Hvals k v); left | done | done | done |].
  rewrite Hcall. simpl.
  destruct (Hspec _ _ _ _ _ _ Hcall) as ([Hlen1 Hsub1 Hmemo1 Hnew1] & Hfr1 & Hin1 & ->);
    [apply (Hvals k v); left | done | done |].
  rewrite Hfr1; [|lia]. rewrite Hacc. simpl.
  pose proof (map_subseteq_size _ _ Hsub1) as Hsz.
  eapply IH.
  - intros k' v' Hin. apply (Hvals k' v'). by right.
  - eapply memo_ok_length; [done|]. by rewrite length_insert.
  - apply extends_insert_fresh; [|lia]. by eapply extends_frame.
  - rewrite length_insert. lia.
  - apply list_lookup_insert_eq. lia.
  - lia.
Qed.

Lemma list_items_total n rec y :
  copy_spec rec → copy_total n rec →
  ∀ items memo h acc,
    Forall (val_ok (length h0)) items →
    memo_ok memo h → extends h →
    length h0 ≤ y < length h → h !! y = Some (OList acc) →
    length h0 - size memo < n →
    is_Some (deepcopy_list_items rec y items memo h).
Proof.
  intros Hspec Htot. induction items as [|v rest IH];
    intros memo h acc Hvals Hmemo Hext Hy Hacc Hn; simpl; [done|].
  apply Forall_cons in Hvals as [Hv Hvals].
  destruct (Htot v memo h) as [[[v1 memo1] h1] Hcall]; [done | done | done | done |].
  rewrite Hcall. simpl.
  destruct (Hspec _ _ _ _ _ _ Hcall) as ([Hlen1 Hsub1 Hmemo1 Hnew1] & Hfr1 & Hin1 & ->);
    [done | done | done |].
  rewrite Hfr1; [|lia]. rewrite Hacc. simpl.
  pose proof (map_subseteq_size _ _ Hsub1) as Hsz.
  eapply IH.
  - done.
  - eapply memo_ok_length; [done|]. by rewrite length_insert.
  - apply extends_insert_fresh; [|lia]. by eapply extends_frame.
  - rewrite length_insert. lia.
  - apply list_lookup_insert_eq. lia.
  - lia.
Qed.

Lemma deepcopy_memo_total n : copy_total n (deepcopy_memo n).
Proof.
  induction n as [|n IH]; intros x memo h Hx Hmemo Hext Hn; [lia|].
  destruct x as [| b | z | s | a]; simpl; try done.
  destruct (memo !! a) as [y|] eqn:Hma; [done|].
  simpl in Hx. pose proof Hext as [HlenB Hpre].
  assert (Hmemo1 : ∀ o, memo_ok (<[a := length h]> memo) (h ++ [o])).
  { intros o. by apply memo_ok_alloc. }
  assert (Hsz : length h0 - size (<[a := length h]> memo) < n).
  { pose proof (memo_ok_size _ _ (Hmemo1 (OList []))) as Hle.
    rewrite map_size_insert_None in *; [lia | done | done]. }
  assert (Hrange : ∀ o, length h0 ≤ length h < length (h ++ [o])).
  { intros o. rewrite length_app. simpl. lia. }
  rewrite (Hpre a Hx).
  destruct (h0 !! a) as [[d|l]|] eqn:Ha0.
  - destruct (dict_items_total n (deepcopy_memo n) (length h)
                (deepcopy_memo_spec n) IH (map_to_list d)
                (<[a := length h]> memo) (h ++ [ODict ∅]) ∅) as [[m1 h1] ->];
      [ | apply Hmemo1 | by apply extends_alloc | apply Hrange
        | by rewrite list_lookup_middle | done | done ].
    intros k v Hkv. apply elem_of_map_to_list in Hkv.
    exact (h0_lookup_ok a _ Ha0 k v Hkv).
  - destruct (list_items_total n (deepcopy_memo n) (length h)
                (deepcopy_memo_spec n) IH l
                (<[a := length h]> memo) (h ++ [OList []]) []) as [[m1 h1] ->];
      [ | apply Hmemo1 | by apply extends_alloc | apply Hrange
        | by rewrite list_lookup_middle | done | done ].
    exact (h0_lookup_ok a _ Ha0).
  - apply lookup_ge_None in Ha0. lia.
Qed.

End deepcopy_spec.

(** *** The fuel is immaterial: more of it gives the same copy *)

Lemma dict_items_mono
    (rec rec' : pyval → memo_t → heap → option (pyval * memo_t * heap)) y :
  (∀ x memo h r, rec x memo h = Some r → rec' x memo h = Some r) →
  ∀ items memo h r,
    deepcopy_dict_items rec y items memo h = Some r →
    deepcopy_dict_items rec' y items memo h = Some r.
Proof.
  intros Hrec. induction items as [|[k v] rest IH]; intros memo h r Hrun; [done|].
  simpl in Hrun |- *.
  destruct (rec v memo h) as [[[v1 memo1] h1]|] eqn:Hcall; [|done].
  rewrite (Hrec _ _ _ _ Hcall). simpl in Hrun |- *.
  destruct (h1 !! y) as [[d0|l0]|]; simpl in Hrun |- *; try done.
  by apply IH.
Qed.

Lemma list_items_mono
    (rec rec' : pyval → memo_t → heap → option (pyval * memo_t * heap)) y :
  (∀ x memo h r, rec x memo h = Some r → rec' x memo h = Some r) →
  ∀ items memo h r,
    deepcopy_list_items rec y items memo h = Some r →
    deepcopy_list_items rec' y items memo h = Some r.
Proof.
  intros Hrec. induction items as [|v rest IH]; intros memo h r Hrun; [done|].
  simpl in Hrun |- *.
  destruct (rec v memo h) as [[[v1 memo1] h1]|] eqn:Hcall; [|done].
  rewrite (Hrec _ _ _ _ Hcall). simpl in Hrun |- *.
  destruct (h1 !! y) as [[d0|l0]|]; simpl in Hrun |- *; try done.
  by apply IH.
Qed.

Lemma deepcopy_memo_mono n :
  ∀ n' x memo h r,
    deepcopy_memo n x memo h = Some r → n ≤ n' → deepcopy_memo n' x memo h = Some r.
Proof.
  induction n as [|n IH]; intros n' x memo h r Hrun Hle; [done|].
  destruct n' as [|n']; [lia|].
  destruct x as [| | | |a]; simpl in Hrun |- *; try done.
  destruct (memo !! a) as [y|]; [done|].
  destruct (h !! a) as [[d|l]|]; [| |done].
  - destruct (deepcopy_dict_items (deepcopy_memo n) (length h) (map_to_list d)
                (<[a := length h]> memo) (h ++ [ODict ∅])) as [[m1 h1]|] eqn:Hloop; [|done].
    erewrite dict_items_mono; [exact Hrun | | exact Hloop].
    intros x' memo' h' r' Hr'. apply IH; [done | lia].
  - destruct (deepcopy_list_items (deepcopy_memo n) (length h) l
                (<[a := length h]> memo) (h ++ [OList []])) as [[m1 h1]|] eqn:Hloop; [|done].
    erewrite list_items_mono; [exact Hrun | | exact Hloop].
    intros x' memo' h' r' Hr'. apply IH; [done | lia].
Qed.

(** [copy.deepcopy] returns on every store without dangling references,
    leaves that store as it was and builds the copy out of new containers. *)
Theorem deepcopy_correct h x :
  heap_ok h → val_ok (length h) x →
  ∃ memo h', deepcopy x h = Some (rename memo x, h')
             ∧ val_in memo x ∧ is_copy h memo h'.
Proof.
  intros Hok Hx.
  assert (Hm0 : memo_ok h ∅ h).
  { split; intros a; intros; by rewrite lookup_empty in *. }
  assert (He0 : extends h h) by (split; [lia | done]).
  destruct (deepcopy_memo_total h Hok (S (length h)) x ∅ h) as [[[v memo] h'] Hrun];
    [done | done | done | rewrite map_size_empty; lia |].
  destruct (deepcopy_memo_spec h Hok _ _ _ _ _ _ _ Hrun) as
    ([Hlen Hsub [Hmemo Hinj] Hnew] & Hfr & Hin & ->); [done | done | done |].
  exists memo, h'. unfold deepcopy. rewrite Hrun. simpl.
  split; [done|]. split; [done|]. split; try done.
  intros a y Hy. destruct (Hnew a y Hy) as [_ Hcp]; [apply lookup_empty | done].
Qed.

(** Whatever fuel lets the recursion finish, the copy is the one of
    [deepcopy]. *)
Lemma deepcopy_any_fuel n x h y memo h' :
  heap_ok h → val_ok (length h) x →
  deepcopy_memo n x ∅ h = Some (y, memo, h') → deepcopy x h = Some (y, h').
Proof.
  intros Hok Hx Hrun. unfold deepcopy.
  destruct (decide (n ≤ S (length h))) as [Hle|Hgt].
  - by rewrite (deepcopy_memo_mono n _ _ _ _ _ Hrun Hle).
  - destruct (deepcopy_correct h x Hok Hx) as (memo0 & h0 & Hc & _).
    unfold deepcopy in Hc.
    destruct (deepcopy_memo (S (length h)) x ∅ h) as [r|] eqn:Hr; [|done].
    rewrite (deepcopy_memo_mono _ n _ _ _ _ Hr) in Hrun; [|lia].
    by injection Hrun as ->.
Qed.

Lemma reach_ok h v c : heap_ok h → val_ok (length h) v → reach h v c → c < length h.
Proof.
  intros Hok Hv Hr. induction Hr as [a | a d k v c Ha Hk _ IH | a l i v c Ha Hi _ IH].
  - done.
  - apply IH. unfold heap_ok in Hok. rewrite Forall_lookup in Hok.
    exact (Hok _ _ Ha k v Hk).
  - apply IH. unfold heap_ok in Hok. rewrite Forall_lookup in Hok.
    specialize (Hok _ _ Ha). simpl in Hok. rewrite Forall_lookup in Hok.
    by eapply Hok.
Qed.

(** A region of the store closed under references: whatever is reached
    from inside stays inside. *)
Lemma reach_closed (P : addr → Prop) h :
  (∀ a d k b, P a → h !! a = Some (ODict d) → d !! k = Some (VRef b) → P b) →
  (∀ a l i b, P a → h !! a = Some (OList l) → l !! i = Some (VRef b) → P b) →
  ∀ v c, reach h v c → (∀ a, v = VRef a → P a) → P c.
Proof.
  intros Hd Hl v c Hr.
  induction Hr as [a | a d k v c Ha Hk _ IH | a l i v c Ha Hi _ IH]; intros Hv.
  - by apply Hv.
  - apply IH. intros b ->. eapply Hd; [by apply Hv | done | done].
  - apply IH. intros b ->. eapply Hl; [by apply Hv | done | done].
Qed.

Lemma map_mapM_Some {A B} (f : A → option B) m m' :
  map_mapM f m = Some m' ↔
  (∀ k v, m !! k = Some v → is_Some (f v)) ∧ m' = omap f m.
Proof.
  unfold map_mapM. case_decide as H; split.
  - intros [= <-]. done.
  - intros [_ ->]. done.
  - done.
  - intros [H' _]. by destruct H.
Qed.

Lemma map_mapM_lookup {A B} (f : A → option B) m m' k :
  map_mapM f m = Some m' → m' !! k = m !! k ≫= f.
Proof. intros [_ ->]%map_mapM_Some. apply lookup_omap. Qed.

Lemma map_mapM_ext_Some {A B} (f g : A → option B) m m' :
  map_mapM f m = Some m' →
  (∀ k v t, m !! k = Some v → f v = Some t → g v = Some t) →
  map_mapM g m = Some m'.
Proof.
  intros [Hall ->]%map_mapM_Some Hfg. apply map_mapM_Some. split.
  - intros k v Hk. destruct (Hall k v Hk) as [t Ht]. exists t. by eapply Hfg.
  - apply map_eq. intros k. rewrite !lookup_omap.
    destruct (m !! k) as [v|] eqn:Hk; simpl; [|done].
    destruct (Hall k v Hk) as [t Ht]. rewrite Ht. symmetry. by eapply Hfg.
Qed.

Lemma map_mapM_fmap {A B C} (f : B → option C) (g : A → B) m :
  map_mapM f (g <$> m) = map_mapM (f ∘ g) m.
Proof.
  destruct (map_mapM (f ∘ g) m) as [m'|] eqn:H.
  - apply map_mapM_Some in H as [Hall ->]. apply map_mapM_Some. split.
    + intros k v Hk. rewrite lookup_fmap in Hk.
      destruct (m !! k) as [w|] eqn:Hw; simplify_eq/=. by eapply Hall.
    + apply map_eq. intros k. rewrite !lookup_omap, lookup_fmap.
      by destruct (m !! k).
  - destruct (map_mapM f (g <$> m)) as [m'|] eqn:H'; [|done].
    apply map_mapM_Some in H' as [Hall ->].
    assert (map_mapM (f ∘ g) m = Some (omap (f ∘ g) m)) as Hs; [|congruence].
    apply map_mapM_Some. split; [|done].
    intros k v Hk. apply (Hall k (g v)). by rewrite lookup_fmap, Hk.
Qed.

Lemma map_mapM_insert {A B} (f : A → option B) m m' k v t :
  map_mapM f m = Some m' → f v = Some t →
  map_mapM f (<[k := v]> m) = Some (<[k := t]> m').
Proof.
  intros [Hall ->]%map_mapM_Some Hv. apply map_mapM_Some. split.
  - intros k' v' Hk'. destruct (decide (k = k')) as [<-|Hne].
    + rewrite lookup_insert_eq in Hk'. injection Hk' as <-. by exists t.
    + rewrite lookup_insert_ne in Hk'; [|done]. by eapply Hall.
  - symmetry. by apply omap_insert_Some.
Qed.

Lemma mapM_ext_Some {A B} (f g : A → option B) l l' :
  mapM f l = Some l' →
  (∀ v t, v ∈ l → f v = Some t → g v = Some t) →
  mapM g l = Some l'.
Proof.
  intros H Hfg. apply mapM_Some in H. apply mapM_Some.
  induction H as [|v t l l' Hv _ IH]; [constructor|]. constructor.
  - apply Hfg; [left | done].
  - apply IH. intros v' t' Hin. apply Hfg. by right.
Qed.

Lemma map_mapM_ext {A B} (f g : A → option B) m :
  (∀ k v, m !! k = Some v → f v = g v) → map_mapM f m = map_mapM g m.
Proof.
  intros Hfg. unfold map_mapM.
  assert (omap f m = omap g m) as ->.
  { apply map_eq. intros k. rewrite !lookup_omap.
    destruct (m !! k) as [v|] eqn:Hk; simpl; [by eapply Hfg | done]. }
  repeat case_decide; try done.
  - exfalso. apply H0. intros k v Hk. rewrite <- (Hfg k v Hk). by eapply H.
  - exfalso. apply H. intros k v Hk. rewrite (Hfg k v Hk). by eapply H0.
Qed.

(** A store that keeps the containers of [h] reads them as [h] does. *)
Lemma reify_frame h h' :
  heap_ok h → (∀ b, b < length h → h' !! b = h !! b) →
  ∀ n v, val_ok (length h) v → reify n h' v = reify n h v.
Proof.
  intros Hok Hfr. induction n as [|n IH]; intros v Hv.
  - by destruct v.
  - destruct v as [| | | |a]; try done. simpl in Hv |- *.
    rewrite (Hfr a Hv). destruct (h !! a) as [[d|l]|] eqn:Ha; [| |done].
    + f_equal. apply map_mapM_ext. intros k v Hk. apply IH.
      unfold heap_ok in Hok. rewrite Forall_lookup in Hok. exact (Hok _ _ Ha k v Hk).
    + f_equal. apply Forall_mapM_ext.
      unfold heap_ok in Hok. rewrite Forall_lookup in Hok. specialize (Hok _ _ Ha).
      simpl in Hok. eapply Forall_impl; [exact Hok|]. intros v Hv'. by apply IH.
Qed.

(** More fuel reads the same content. *)
Lemma reify_mono h n : ∀ n' v t, reify n h v = Some t → n ≤ n' → reify n' h v = Some t.
Proof.
  induction n as [|n IH]; intros n' v t Hr Hle.
  - destruct v; destruct n'; simpl in *; done.
  - destruct v as [| | | |a]; try (destruct n'; simpl in *; done).
    simpl in Hr. destruct n' as [|n']; [lia|]. simpl.
    destruct (h !! a) as [[d|l]|]; [| |done].
    + destruct (map_mapM (reify n h) d) as [td|] eqn:Hd; [|done].
      erewrite map_mapM_ext_Some; [done | done |].
      intros k v t' _ Hv. apply IH; [done | lia].
    + destruct (mapM (reify n h) l) as [tl|] eqn:Hl; [|done].
      erewrite mapM_ext_Some; [done | done |].
      intros v t' _ Hv. apply IH; [done | lia].
Qed.

(** The least fuel that reads a value. *)
Lemma reify_min h v : ∀ n t,
  reify n h v = Some t →
  ∃ m, m ≤ n ∧ reify m h v = Some t ∧ ∀ m', m' < m → reify m' h v = None.
Proof.
  induction n as [|n IH]; intros t Hr.
  - exists 0. split; [done|]. split; [done|]. intros m' Hm'. lia.
  - destruct (reify n h v) as [t'|] eqn:Hn.
    + assert (t' = t) as ->.
      { pose proof (reify_mono h n (S n) v t' Hn) as H. rewrite Hr in H.
        assert (Some t = Some t') as [= ->] by (apply H; lia). done. }
      destruct (IH t eq_refl) as (m & Hm & Hrm & Hmin).
      exists m. split; [lia | done].
    + exists (S n). split; [done|]. split; [done|].
      intros m' Hm'. destruct (reify m' h v) as [t'|] eqn:Hm''; [|done].
      rewrite (reify_mono h m' n v t' Hm'') in Hn; [done | lia].
Qed.

(** The copy of a value reads like the value, in any store that agrees
    with the copy's away from [y]; [y] is the copy of a container [a] that
    the value does not lead back to. *)
Lemma reify_copy h memo h' h3 a y :
  is_copy h memo h' → memo !! a = Some y →
  (∀ z, z ≠ y → h3 !! z = h' !! z) →
  ∀ m v t,
    (∀ m', m' ≤ m → reify m' h (VRef a) = None) →
    val_in memo v → reify m h v = Some t →
    reify m h3 (rename memo v) = Some t.
Proof.
  intros Hcp Hay H3. induction m as [|m IH]; intros v t Hmin Hin Hr.
  - destruct v; simpl in *; done.
  - destruct v as [| | | |b]; simpl in Hr |- *; try done.
    destruct Hin as [z Hz]. rewrite Hz. simpl.
    destruct (decide (b = a)) as [->|Hne].
    { rewrite <- Hr. specialize (Hmin (S m)). simpl in Hmin.
      rewrite Hmin in Hr; [done | lia]. }
    assert (z ≠ y) as Hzy.
    { intros ->. apply Hne. by eapply (copy_inj _ _ _ Hcp). }
    rewrite (H3 z Hzy).
    destruct (copy_image _ _ _ Hcp b z Hz) as (o & Ho & Hino & ->).
    rewrite Ho in Hr. destruct o as [d|l]; simpl in *.
    + destruct (map_mapM (reify m h) d) as [td|] eqn:Hd; [|done].
      rewrite map_mapM_fmap. erewrite map_mapM_ext_Some; [done | done |].
      intros k v t' Hk Hv. simpl. apply IH; [|by eapply Hino | done].
      intros m' Hm'. apply Hmin. lia.
    + destruct (mapM (reify m h) l) as [tl|] eqn:Hl; [|done].
      assert (mapM (reify m h3) (rename memo <$> l) = Some tl) as ->; [|done].
      apply mapM_Some. apply mapM_Some in Hl. apply Forall2_fmap_l.
      clear Hr Ho. induction Hl as [|v t' l tl Hv _ IHl]; [constructor|].
      apply Forall_cons in Hino as [Hv0 Hino].
      constructor; [|by apply IHl].
      apply IH; [|done|done]. intros m' Hm'. apply Hmin. lia.
Qed.

End PyFacts.

Import PyFacts.

(* ===================================================================== *)
(** ** [ApiKeyDB.mask_secrets]                                            *)
(* ===================================================================== *)

Module MaskFacts.

Import ApiKeyDB.

(** What the method does to a dictionary: a copy of everything under it,
    with the two fields assigned in the copy's own top-level dictionary. *)
Lemma mask_secrets_dict S self h a d :
  heap_ok h → h !! a = Some (ODict d) →
  ∃ memo y h1,
    memo !! a = Some y ∧ is_copy h memo h1 ∧ obj_in memo (ODict d) ∧
    mask_secrets S self (VRef a) h
    = Some (Ok (VRef y), <[y := ODict (masked S (rename memo <$> d))]> h1).
Proof.
  intros Hok Ha.
  assert (Hlt : a < length h) by by eapply lookup_lt_Some.
  destruct (deepcopy_correct h (VRef a) Hok Hlt) as (memo & h1 & Hrun & [y Hy] & Hcp).
  destruct (copy_image _ _ _ Hcp a y Hy) as (o & Ho & Hin & Hy1).
  rewrite Ha in Ho. injection Ho as <-.
  destruct (copy_fresh _ _ _ Hcp a y Hy) as [_ [_ Hylt]].
  exists memo, y, h1. split; [done|]. split; [done|]. split; [done|].
  unfold mask_secrets. rewrite Hrun. simpl. rewrite Hy. simpl.
  rewrite Hy1. simpl. rewrite list_lookup_insert_eq; [|done].
  by rewrite list_insert_insert_eq.
Qed.

Lemma rename_ref_image memo v b :
  val_in memo v → rename memo v = VRef b → ∃ a, memo !! a = Some b.
Proof.
  destruct v as [| | | |a]; simpl; try done.
  intros [y Hy]. rewrite Hy. intros [= <-]. by exists a.
Qed.

(** Everything the masked copy leads to was allocated by the copy. *)
Lemma masked_copy_fresh S h memo h1 a y d c :
  is_copy h memo h1 → memo !! a = Some y → obj_in memo (ODict d) →
  reach (<[y := ODict (masked S (rename memo <$> d))]> h1) (VRef y) c →
  length h ≤ c.
Proof.
  intros Hcp Hy Hin Hr.
  assert (∃ b, memo !! b = Some c) as [b Hb]; [|destruct (copy_fresh _ _ _ Hcp b c Hb); lia].
  destruct (copy_fresh _ _ _ Hcp a y Hy) as [_ [_ Hylt]].
  assert (Hfield : ∀ k b', masked S (rename memo <$> d) !! k = Some (VRef b') →
                           ∃ b, memo !! b = Some b').
  { intros k b' Hk. unfold masked in Hk.
    destruct (decide (k = "uid")) as [->|Hn1]; [by rewrite lookup_insert_eq in Hk|].
    rewrite lookup_insert_ne in Hk; [|done].
    destruct (decide (k = "key_hash")) as [->|Hn2]; [by rewrite lookup_insert_eq in Hk|].
    rewrite lookup_insert_ne in Hk; [|done]. rewrite lookup_fmap in Hk.
    destruct (d !! k) as [v|] eqn:Hv; simplify_eq/=.
    eapply rename_ref_image; [|done]. exact (Hin k v Hv). }
  apply (reach_closed (λ c, ∃ b, memo !! b = Some c) _) with (v := VRef y) (c := c) in Hr.
  - done.
  - intros z dz k b' [bz Hbz] Hz Hk.
    destruct (decide (z = y)) as [->|Hne].
    + rewrite list_lookup_insert_eq in Hz; [|done]. injection Hz as <-. by eapply Hfield.
    + rewrite list_lookup_insert_ne in Hz; [|done].
      destruct (copy_image _ _ _ Hcp bz z Hbz) as (o & Ho & Hino & Hz').
      rewrite Hz in Hz'. destruct o as [d0|l0]; simplify_eq/=.
      rewrite lookup_fmap in Hk. destruct (d0 !! k) as [v|] eqn:Hv; simplify_eq/=.
      eapply rename_ref_image; [|done]. exact (Hino k v Hv).
  - intros z lz i b' [bz Hbz] Hz Hi.
    destruct (decide (z = y)) as [->|Hne].
    + rewrite list_lookup_insert_eq in Hz; [done|done].
    + rewrite list_lookup_insert_ne in Hz; [|done].
      destruct (copy_image _ _ _ Hcp bz z Hbz) as (o & Ho & Hino & Hz').
      rewrite Hz in Hz'. destruct o as [d0|l0]; simplify_eq/=.
      rewrite list_lookup_fmap in Hi. destruct (l0 !! i) as [v|] eqn:Hv; simplify_eq/=.
      eapply rename_ref_image; [|done]. rewrite Forall_lookup in Hino. by eapply Hino.
  - intros a' [= <-]. by exists a.
Qed.

(** The masked copy reads like the input with the two fields set. *)
Lemma masked_copy_reify S h memo h1 a y d n td :
  is_copy h memo h1 → memo !! a = Some y →
  h !! a = Some (ODict d) → obj_in memo (ODict d) →
  reify n h (VRef a) = Some (TDict td) →
  reify n (<[y := ODict (masked S (rename memo <$> d))]> h1) (VRef y)
  = Some (TDict (<["uid" := TStr S]> (<["key_hash" := TStr S]> td))).
Proof.
  intros Hcp Hy Ha Hin Hr.
  destruct (copy_fresh _ _ _ Hcp a y Hy) as [_ [_ Hylt]].
  destruct (reify_min _ _ _ _ Hr) as (m & Hm & Hrm & Hmin).
  destruct m as [|m]; [done|].
  eapply reify_mono; [|exact Hm].
  simpl in Hrm |- *. rewrite Ha in Hrm.
  rewrite list_lookup_insert_eq; [|done]. simpl.
  destruct (map_mapM (reify m h) d) as [td0|] eqn:Hd; [|done].
  injection Hrm as ->.
  assert (Hatom : reify m (<[y := ODict (masked S (rename memo <$> d))]> h1) (VStr S)
                  = Some (TStr S)) by by destruct m.
  unfold masked.
  erewrite map_mapM_insert; [done | | done].
  apply map_mapM_insert; [|done].
  rewrite map_mapM_fmap. eapply map_mapM_ext_Some; [done|].
  intros k v t Hk Hv. simpl.
  eapply (reify_copy h memo h1 _ a y); [done | done | | | exact (Hin k v Hk) | done].
  - intros z Hz. by rewrite list_lookup_insert_ne.
  - intros m' Hm'. apply Hmin. lia.
Qed.

End MaskFacts.

Import MaskFacts.

(* ===================================================================== *)
(** ** Properties of the records                                          *)
(* ===================================================================== *)

(** C1, as stated, fails: a key whose hash is the sentinel string itself
    comes out of [mask_secrets] with [key_hash] equal to its literal value. *)
Lemma mask_secrets_literal_counterexample :
  ∃ out h',
    ApiKeyDB.mask_secrets "***" alice_key (VRef 0) starred_export = Some (Ok out, h')
    ∧ sentinel_fields "***" out h'
    ∧ ¬ literals_gone (VRef 0) starred_export out h'.
Proof.
  eexists _, _. split; [vm_compute; reflexivity|]. split; [by vm_compute|].
  intros H. apply (H "key_hash" (VStr "***")).
  - left.
  - by vm_compute.
  - by vm_compute.
Qed.

(** C1 (amended): for every record [self], every store and every exported
    representation in it, [mask_secrets] returns a representation whose
    [key_hash] and [uid] are the sentinel, whatever the record and the
    input; a literal value of the input's [key_hash] or [uid] that is not
    the sentinel itself is not in those fields of the output. *)
Theorem mask_secrets_sentinel S self h a d :
  heap_ok h → h !! a = Some (ODict d) →
  ∃ out h',
    ApiKeyDB.mask_secrets S self (VRef a) h = Some (Ok out, h')
    ∧ sentinel_fields S out h'
    ∧ (∀ self', ApiKeyDB.mask_secrets S self' (VRef a) h = Some (Ok out, h'))
    ∧ (∀ k v, k ∈ ["key_hash"; "uid"] → getitem (VRef a) k h = Some v →
              v ≠ VStr S → getitem out k h' ≠ Some v).
Proof.
  intros Hok Ha.
  destruct (mask_secrets_dict S self h a d Hok Ha) as (memo & y & h1 & Hy & Hcp & Hin & Hrun).
  destruct (copy_fresh _ _ _ Hcp a y Hy) as [_ [_ Hylt]].
  eexists _, _. split; [exact Hrun|].
  assert (Hs : sentinel_fields S (VRef y)
                 (<[y := ODict (masked S (rename memo <$> d))]> h1)).
  { unfold sentinel_fields, getitem. rewrite list_lookup_insert_eq; [|done].
    unfold masked. split; [|by rewrite lookup_insert_eq].
    rewrite lookup_insert_ne; [|done]. by rewrite lookup_insert_eq. }
  split; [done|]. split; [intros self'; exact Hrun|].
  intros k v Hk Hv Hne Hout. destruct Hs as [Hs1 Hs2].
  apply elem_of_cons in Hk as [->|Hk]; [congruence|].
  apply list_elem_of_singleton in Hk as ->. congruence.
Qed.

Lemma mask_secrets_sentinel_witness :
  heap_ok alice_export
  ∧ alice_export !! 0 = Some (ODict {[ "user" := VStr "alice"; "key_hash" := VStr "h1";
                                       "uid" := VStr "api_key:h1"; "enabled" := VBool true;
                                       "metadata" := VRef 1 ]})
  ∧ ∃ out h',
      ApiKeyDB.mask_secrets "***" alice_key (VRef 0) alice_export = Some (Ok out, h')
      ∧ sentinel_fields "***" out h'
      ∧ (∀ self', ApiKeyDB.mask_secrets "***" self' (VRef 0) alice_export = Some (Ok out, h'))
      ∧ (∀ k v, k ∈ ["key_hash"; "uid"] → getitem (VRef 0) k alice_export = Some v →
                v ≠ VStr "***" → getitem out k h' ≠ Some v).
Proof.
  assert (Hok : heap_ok alice_export) by (apply (bool_decide_unpack _); vm_compute; exact I).
  split; [exact Hok|]. split; [reflexivity|].
  apply (mask_secrets_sentinel "***" alice_key alice_export 0 _ Hok eq_refl).
Defined.

(** C10: the masked export of any representation, partial ones included,
    has both [key_hash] and [uid], set to the sentinel: its keys are the
    keys of the input together with these two, so a key the input lacks
    is inserted. *)
Theorem mask_secrets_inserts S self h a d :
  heap_ok h → h !! a = Some (ODict d) →
  ∃ y h' d',
    ApiKeyDB.mask_secrets S self (VRef a) h = Some (Ok (VRef y), h')
    ∧ h' !! y = Some (ODict d')
    ∧ d' !! "key_hash" = Some (VStr S)
    ∧ d' !! "uid" = Some (VStr S)
    ∧ dom d' = dom d ∪ {[ "key_hash"; "uid" ]}.
Proof.
  intros Hok Ha.
  destruct (mask_secrets_dict S self h a d Hok Ha) as (memo & y & h1 & Hy & Hcp & Hin & Hrun).
  destruct (copy_fresh _ _ _ Hcp a y Hy) as [_ [_ Hylt]].
  eexists _, _, _. split; [exact Hrun|].
  split; [by apply list_lookup_insert_eq|]. unfold masked.
  split; [rewrite lookup_insert_ne; [by rewrite lookup_insert_eq | done]|].
  split; [by rewrite lookup_insert_eq|].
  rewrite !dom_insert_L, dom_fmap_L. apply set_eq. intros k.
  rewrite !elem_of_union, !elem_of_singleton. tauto.
Qed.

Lemma mask_secrets_inserts_witness :
  heap_ok empty_export
  ∧ empty_export !! 0 = Some (ODict ∅)
  ∧ ∃ y h' d',
      ApiKeyDB.mask_secrets "***" alice_key (VRef 0) empty_export = Some (Ok (VRef y), h')
      ∧ h' !! y = Some (ODict d')
      ∧ d' !! "key_hash" = Some (VStr "***")
      ∧ d' !! "uid" = Some (VStr "***")
      ∧ dom d' = dom (∅ : gmap string pyval) ∪ {[ "key_hash"; "uid" ]}.
Proof.
  assert (Hok : heap_ok empty_export) by (apply (bool_decide_unpack _); vm_compute; exact I).
  split; [exact Hok|]. split; [reflexivity|].
  apply (mask_secrets_inserts "***" alice_key empty_export 0 ∅ Hok eq_refl).
Defined.

(** On an empty representation the output is exactly the two sentinels. *)
Example mask_secrets_empty :
  ApiKeyDB.mask_secrets "***" alice_key (VRef 0) empty_export
  = Some (Ok (VRef 1),
          [ ODict ∅; ODict {[ "key_hash" := VStr "***"; "uid" := VStr "***" ]} ]).
Proof. vm_compute. reflexivity. Qed.

(** The call always ends: it returns the masked copy of a dictionary and
    raises for anything else. *)
Lemma mask_secrets_total S self h value :
  heap_ok h → val_ok (length h) value →
  ∃ out h', ApiKeyDB.mask_secrets S self value h = Some (out, h').
Proof.
  intros Hok Hv.
  destruct (deepcopy_correct h value Hok Hv) as (memo & h1 & Hcopy & Hin & Hcp).
  unfold ApiKeyDB.mask_secrets. rewrite Hcopy. simpl.
  destruct (setitem (rename memo value) "key_hash" (VStr S) h1) as [h2|];
    [|by eexists _, _].
  destruct (setitem (rename memo value) "uid" (VStr S) h2) as [h3|]; by eexists _, _.
Qed.

(** Whatever the argument, and whether the call returns or raises, the
    containers that were in the store are as they were. *)
Lemma mask_secrets_store_kept S self h value out h' :
  heap_ok h → val_ok (length h) value →
  ApiKeyDB.mask_secrets S self value h = Some (out, h') →
  ∀ b, b < length h → h' !! b = h !! b.
Proof.
  intros Hok Hv Hrun b Hb.
  destruct (deepcopy_correct h value Hok Hv) as (memo & h1 & Hcopy & Hin & Hcp).
  unfold ApiKeyDB.mask_secrets in Hrun. rewrite Hcopy in Hrun. simpl in Hrun.
  pose proof (copy_frame _ _ _ Hcp b Hb) as Hfr.
  destruct value as [| | | |a]; simpl in Hrun; try (by simplify_eq).
  destruct Hin as [y Hy]. rewrite Hy in Hrun. simpl in Hrun.
  destruct (copy_fresh _ _ _ Hcp a y Hy) as [_ [Hyge Hylt]].
  destruct (h1 !! y) as [[d1|l1]|] eqn:Hy1; try (by simplify_eq).
  rewrite list_lookup_insert_eq in Hrun; [|done].
  injection Hrun as <- <-.
  rewrite !list_lookup_insert_ne; [done | lia | lia].
Qed.

(** C4: [mask_secrets] leaves every container of the input store as it
    was, so the input, nested structures included, reads after the call as
    it read before; the output shares no container with the input; and
    every field of the output other than [key_hash] and [uid] is the
    input's field: the same atom, absent where the input has none, a
    container of the copy for a container, and with the same content
    whenever the input has one. *)
Theorem mask_secrets_frame S self h a d :
  heap_ok h → h !! a = Some (ODict d) →
  ∃ y h',
    ApiKeyDB.mask_secrets S self (VRef a) h = Some (Ok (VRef y), h')
    ∧ (∀ b, b < length h → h' !! b = h !! b)
    ∧ (∀ n v, val_ok (length h) v → reify n h' v = reify n h v)
    ∧ (∀ c, reach h (VRef a) c → c < length h)
    ∧ (∀ c, reach h' (VRef y) c → length h ≤ c)
    ∧ (∀ k, k ≠ "key_hash" → k ≠ "uid" →
         match getitem (VRef a) k h with
         | Some (VRef b) => ∃ b', getitem (VRef y) k h' = Some (VRef b') ∧ length h ≤ b'
         | field => getitem (VRef y) k h' = field
         end)
    ∧ (∀ n td, reify n h (VRef a) = Some (TDict td) →
         ∃ td', reify n h' (VRef y) = Some (TDict td')
                ∧ ∀ k, k ≠ "key_hash" → k ≠ "uid" → td' !! k = td !! k).
Proof.
  intros Hok Ha.
  assert (Hlt : a < length h) by by eapply lookup_lt_Some.
  destruct (mask_secrets_dict S self h a d Hok Ha) as (memo & y & h1 & Hy & Hcp & Hin & Hrun).
  destruct (copy_fresh _ _ _ Hcp a y Hy) as [_ [Hyge Hylt]].
  eexists _, _. split; [exact Hrun|].
  assert (Hfr : ∀ b, b < length h →
                  <[y := ODict (masked S (rename memo <$> d))]> h1 !! b = h !! b).
  { intros b Hb. rewrite list_lookup_insert_ne; [|lia]. by apply (copy_frame _ _ _ Hcp). }
  split; [done|]. split; [by apply reify_frame|].
  split; [intros c; by apply reach_ok|].
  split; [intros c; by eapply masked_copy_fresh|].
  split.
  { intros k Hk1 Hk2. unfold getitem. rewrite Ha.
    rewrite list_lookup_insert_eq; [|done]. unfold masked.
    rewrite !lookup_insert_ne; [|done|done]. rewrite lookup_fmap.
    destruct (d !! k) as [v|] eqn:Hv; [|done]. simpl.
    pose proof (Hin k v Hv) as Hvin.
    destruct v as [| | | |b]; try done. simpl in Hvin |- *.
    destruct Hvin as [b' Hb']. rewrite Hb'. exists b'. split; [done|].
    destruct (copy_fresh _ _ _ Hcp b b' Hb'). lia. }
  intros n td Hr. eexists. split; [by eapply masked_copy_reify|].
  intros k Hk1 Hk2. by rewrite !lookup_insert_ne.
Qed.

Lemma mask_secrets_frame_witness :
  heap_ok alice_export
  ∧ alice_export !! 0 = Some (ODict {[ "user" := VStr "alice"; "key_hash" := VStr "h1";
                                       "uid" := VStr "api_key:h1"; "enabled" := VBool true;
                                       "metadata" := VRef 1 ]})
  ∧ ∃ y h',
      ApiKeyDB.mask_secrets "***" alice_key (VRef 0) alice_export = Some (Ok (VRef y), h')
      ∧ (∀ b, b < length alice_export → h' !! b = alice_export !! b)
      ∧ (∀ n v, val_ok (length alice_export) v → reify n h' v = reify n alice_export v)
      ∧ (∀ c, reach alice_export (VRef 0) c → c < length alice_export)
      ∧ (∀ c, reach h' (VRef y) c → length alice_export ≤ c)
      ∧ (∀ k, k ≠ "key_hash" → k ≠ "uid" →
           match getitem (VRef 0) k alice_export with
           | Some (VRef b) =>
               ∃ b', getitem (VRef y) k h' = Some (VRef b') ∧ length alice_export ≤ b'
           | field => getitem (VRef y) k h' = field
           end)
      ∧ (∀ n td, reify n alice_export (VRef 0) = Some (TDict td) →
           ∃ td', reify n h' (VRef y) = Some (TDict td')
                  ∧ ∀ k, k ≠ "key_hash" → k ≠ "uid" → td' !! k = td !! k).
Proof.
  assert (Hok : heap_ok alice_export) by (apply (bool_decide_unpack _); vm_compute; exact I).
  split; [exact Hok|]. split; [reflexivity|].
  apply (mask_secrets_frame "***" alice_key alice_export 0 _ Hok eq_refl).
Defined.

(** The scenario run: the export of alice's key and its masked copy, the
    nested dictionary and list copied into containers of their own. *)
Example mask_secrets_alice :
  ApiKeyDB.mask_secrets "***" alice_key (VRef 0) alice_export
  = Some (Ok (VRef 3),
          alice_export ++
          [ ODict {[ "user" := VStr "alice"; "key_hash" := VStr "***";
                     "uid" := VStr "***"; "enabled" := VBool true;
                     "metadata" := VRef 4 ]};
            ODict {[ "team" := VStr "ops"; "tags" := VRef 5 ]};
            OList [ VStr "a"; VStr "b" ] ]).
Proof. vm_compute. reflexivity. Qed.

(** Assigning into something that is not a dictionary raises. *)
Example mask_secrets_list :
  ApiKeyDB.mask_secrets "***" alice_key (VRef 2) alice_export
  = Some (Raise TypeError, alice_export ++ [ OList [ VStr "a"; VStr "b" ] ]).
Proof. vm_compute. reflexivity. Qed.

(** *** Declarations *)

(** C7: the uniqueness constraints of the module are on [name] of the
    user, [token] of the token and [key_hash] of the API key, and on nothing
    else; the API key asks for lookup indexes on [user] and on [key_hash];
    the SSO request declares no uniqueness, neither on [request_id] nor on
    [key]. *)
Theorem declared_constraints :
  unique_constraints MODELS
  = [ ("UserDB", "name"); ("TokenDB", "token"); ("ApiKeyDB", "key_hash") ]
  ∧ unique_fields UserDB.fields = ["name"]
  ∧ unique_fields TokenDB.fields = ["token"]
  ∧ unique_fields ApiKeyDB.fields = ["key_hash"]
  ∧ ApiKeyDB.meta_indexes = [ ["user"]; ["key_hash"] ]
  ∧ unique_fields SSORequestDB.fields = []
  ∧ ("request_id" ∉ unique_fields SSORequestDB.fields)
  ∧ ("key" ∉ unique_fields SSORequestDB.fields).
Proof.
  assert (Hsso : unique_fields SSORequestDB.fields = []) by (vm_compute; reflexivity).
  repeat split; try (vm_compute; reflexivity); rewrite Hsso; apply not_elem_of_nil.
Qed.

(** *** Construction *)

Lemma token_construct_ok u t e md sv :
  TokenDB.construct (TokenDB.mk (Some u) (Some t) (Some e) md sv)
  = Ok (TokenDB.mk (Some u) (Some t) (Some e) md (Some (default false sv))).
Proof. vm_compute. reflexivity. Qed.

Lemma token_construct_raise values :
  TokenDB.user values = None ∨ TokenDB.token values = None
  ∨ TokenDB.expiry values = None →
  ∃ missing, TokenDB.construct values = Raise (ValidationError missing).
Proof.
  destruct values as [[u|] [t|] [e|] md sv]; simpl; intros H;
    try (eexists; vm_compute; reflexivity).
  destruct H as [H|[H|H]]; discriminate H.
Qed.

(** C8: constructing a token raises a validation error exactly when
    [user], [token] or [expiry] is missing; otherwise the record is
    constructed and holds every supplied value as it was supplied. *)
Theorem token_construct_required values :
  ((∃ missing, TokenDB.construct values = Raise (ValidationError missing))
   ↔ (TokenDB.user values = None ∨ TokenDB.token values = None
      ∨ TokenDB.expiry values = None))
  ∧ (∀ e, TokenDB.construct values = Raise e → ∃ missing, e = ValidationError missing)
  ∧ ((∃ self, TokenDB.construct values = Ok self)
     ↔ (is_Some (TokenDB.user values) ∧ is_Some (TokenDB.token values)
        ∧ is_Some (TokenDB.expiry values)))
  ∧ (∀ self, TokenDB.construct values = Ok self →
       TokenDB.user self = TokenDB.user values
       ∧ TokenDB.token self = TokenDB.token values
       ∧ TokenDB.expiry self = TokenDB.expiry values
       ∧ TokenDB.metadata self = TokenDB.metadata values
       ∧ (∀ b, TokenDB.service values = Some b → TokenDB.service self = Some b)).
Proof.
  destruct values as [u t e md sv]. simpl.
  destruct u as [u|]; [destruct t as [t|]; [destruct e as [e|]|]|].
  1: { rewrite token_construct_ok. split; [|split; [|split]].
       - split; [intros [m H]; discriminate H | intros [H|[H|H]]; discriminate H].
       - intros e' H. discriminate H.
       - split; [done | by eexists].
       - intros self [= <-]. simpl. repeat split; try done. by intros b ->. }
  all: match goal with
       | |- context [TokenDB.construct ?v] =>
           destruct (token_construct_raise v) as [m Hm]; [simpl; tauto|]; rewrite Hm
       end.
  all: split; [|split; [|split]].
  all: try (split; [intros _; tauto | intros _; by eexists]).
  all: try (intros e' [= <-]; by eexists).
  all: try (split; [intros [self H]; discriminate H
                   | intros ([? H1] & [? H2] & [? H3]); discriminate]).
  all: intros self H; discriminate H.
Qed.

Lemma sso_construct_ok r k e ty :
  SSORequestDB.construct (SSORequestDB.mk (Some r) k (Some e) (Some ty))
  = Ok (SSORequestDB.mk (Some r) k (Some e) (Some ty)).
Proof. destruct k; vm_compute; reflexivity. Qed.

Lemma sso_construct_key values k :
  SSORequestDB.construct
    (SSORequestDB.mk (SSORequestDB.request_id values) k
                     (SSORequestDB.expiry values) (SSORequestDB.type values))
  = match SSORequestDB.construct values with
    | Ok _ => Ok (SSORequestDB.mk (SSORequestDB.request_id values) k
                                  (SSORequestDB.expiry values) (SSORequestDB.type values))
    | Raise e => Raise e
    end.
Proof.
  destruct values as [[r|] k0 [e|] [ty|]]; simpl;
    destruct k, k0; vm_compute; reflexivity.
Qed.

(** C9: an SSO request of type web with a non-empty key is accepted, and
    so is one of type cli without a key; whatever the other fields, the
    key decides nothing: changing it changes neither whether the record
    is accepted nor the error raised. *)
Theorem sso_key_unchecked :
  (∀ r k e,
     SSORequestDB.construct (SSORequestDB.mk (Some r) (Some k) (Some e) (Some SSORequestDB.WEB))
     = Ok (SSORequestDB.mk (Some r) (Some k) (Some e) (Some SSORequestDB.WEB)))
  ∧ (∀ r e,
     SSORequestDB.construct (SSORequestDB.mk (Some r) None (Some e) (Some SSORequestDB.CLI))
     = Ok (SSORequestDB.mk (Some r) None (Some e) (Some SSORequestDB.CLI)))
  ∧ (∀ values k,
     SSORequestDB.construct
       (SSORequestDB.mk (SSORequestDB.request_id values) k
                        (SSORequestDB.expiry values) (SSORequestDB.type values))
     = match SSORequestDB.construct values with
       | Ok _ => Ok (SSORequestDB.mk (SSORequestDB.request_id values) k
                                     (SSORequestDB.expiry values) (SSORequestDB.type values))
       | Raise e => Raise e
       end)
  ∧ ("key" ∉ required_fields SSORequestDB.fields).
Proof.
  split; [intros r k e; apply sso_construct_ok|].
  split; [intros r e; apply sso_construct_ok|].
  split; [apply sso_construct_key|].
  apply (bool_decide_unpack _). vm_compute. exact I.
Qed.

(** C3, as stated, fails: a web request with a key is constructed, and
    the record holds the key. *)
Lemma sso_key_iff_cli_counterexample :
  SSORequestDB.construct web_with_key = Ok web_with_key
  ∧ ¬ key_iff_cli web_with_key.
Proof.
  split; [vm_compute; reflexivity|].
  intros [H _]. specialize (H eq_refl). discriminate H.
Qed.

(** C3 (amended): whatever is supplied, the record that is constructed is
    the one supplied, key and type included; with the same request id and
    expiry the constructor accepts every key, present or not, with either
    type, so the key is optional for both and is not checked against the
    type; the key is populated exactly for type cli in the record if and
    only if it is so in what the caller supplies. *)
Theorem sso_key_as_supplied values self :
  SSORequestDB.construct values = Ok self →
  self = values
  ∧ SSORequestDB.key self = SSORequestDB.key values
  ∧ SSORequestDB.type self = SSORequestDB.type values
  ∧ (∀ k ty,
       SSORequestDB.construct
         (SSORequestDB.mk (SSORequestDB.request_id values) k
                          (SSORequestDB.expiry values) (Some ty))
       = Ok (SSORequestDB.mk (SSORequestDB.request_id values) k
                             (SSORequestDB.expiry values) (Some ty)))
  ∧ (key_iff_cli self
     ↔ (SSORequestDB.populated (SSORequestDB.key values) = true
        ↔ SSORequestDB.type values = Some SSORequestDB.CLI)).
Proof.
  intros Hc. destruct values as [[r|] k [e|] [ty|]];
    try (destruct k; vm_compute in Hc; discriminate Hc).
  rewrite sso_construct_ok in Hc. injection Hc as <-.
  split; [done|]. split; [done|]. split; [done|]. split; [|done].
  intros k' ty'. apply sso_construct_ok.
Qed.

Lemma sso_key_as_supplied_witness :
  SSORequestDB.construct web_with_key = Ok web_with_key
  ∧ web_with_key = web_with_key
  ∧ SSORequestDB.key web_with_key = SSORequestDB.key web_with_key
  ∧ SSORequestDB.type web_with_key = SSORequestDB.type web_with_key
  ∧ (∀ k ty,
       SSORequestDB.construct
         (SSORequestDB.mk (SSORequestDB.request_id web_with_key) k
                          (SSORequestDB.expiry web_with_key) (Some ty))
       = Ok (SSORequestDB.mk (SSORequestDB.request_id web_with_key) k
                             (SSORequestDB.expiry web_with_key) (Some ty)))
  ∧ (key_iff_cli web_with_key
     ↔ (SSORequestDB.populated (SSORequestDB.key web_with_key) = true
        ↔ SSORequestDB.type web_with_key = Some SSORequestDB.CLI)).
Proof.
  assert (H1 : SSORequestDB.construct web_with_key = Ok web_with_key)
    by (vm_compute; reflexivity).
  split; [exact H1|].
  exact (sso_key_as_supplied web_with_key web_with_key H1).
Defined.

(** The cli request of the sample is constructed as well, and there the
    key goes with the type. *)
Example sso_cli_with_key :
  SSORequestDB.construct cli_with_key = Ok cli_with_key ∧ key_iff_cli cli_with_key.
Proof. split; [vm_compute; reflexivity|]. split; reflexivity. Qed.

(** *** Expiry *)

(** C5: [is_expired] of a token and of an SSO request is a function of the
    record's expiry and the current time alone; every constructed record
    answers it; the answer is no while the expiry is ahead, yes once it is
    behind, and yes at the very instant of the expiry. *)
Theorem is_expired_by_expiry :
  (∀ values self now, TokenDB.construct values = Ok self →
     ∃ b, TokenDB.is_expired self now = Some b)
  ∧ (∀ values self now, SSORequestDB.construct values = Ok self →
     ∃ b, SSORequestDB.is_expired self now = Some b)
  ∧ (∀ r1 r2 now, TokenDB.expiry r1 = TokenDB.expiry r2 →
     TokenDB.is_expired r1 now = TokenDB.is_expired r2 now)
  ∧ (∀ r1 r2 now, SSORequestDB.expiry r1 = SSORequestDB.expiry r2 →
     SSORequestDB.is_expired r1 now = SSORequestDB.is_expired r2 now)
  ∧ (∀ self e now, TokenDB.expiry self = Some e →
     ((now < e)%Z → TokenDB.is_expired self now = Some false)
     ∧ ((e < now)%Z → TokenDB.is_expired self now = Some true)
     ∧ (e = now → TokenDB.is_expired self now = Some true))
  ∧ (∀ self e now, SSORequestDB.expiry self = Some e →
     ((now < e)%Z → SSORequestDB.is_expired self now = Some false)
     ∧ ((e < now)%Z → SSORequestDB.is_expired self now = Some true)
     ∧ (e = now → SSORequestDB.is_expired self now = Some true)).
Proof.
  assert (Hgeb : ∀ e now : Z,
            ((now < e)%Z → (now >=? e)%Z = false)
            ∧ ((e < now)%Z → (now >=? e)%Z = true)
            ∧ (e = now → (now >=? e)%Z = true)).
  { intros e now. rewrite Z.geb_leb. repeat split; intros H.
    - apply Z.leb_gt. lia.
    - apply Z.leb_le. lia.
    - apply Z.leb_le. lia. }
  split; [|split; [|split; [|split; [|split]]]].
  - intros values self now Hc.
    destruct values as [[u|] [t|] [e|] md sv];
      try (match type of Hc with
           | TokenDB.construct ?v = _ =>
               destruct (token_construct_raise v) as [m Hm]; [simpl; tauto|];
               rewrite Hm in Hc; discriminate Hc
           end).
    rewrite token_construct_ok in Hc. injection Hc as <-.
    unfold TokenDB.is_expired. simpl. by eexists.
  - intros values self now Hc.
    destruct values as [[r|] k [e|] [ty|]];
      try (destruct k; vm_compute in Hc; discriminate Hc).
    rewrite sso_construct_ok in Hc. injection Hc as <-.
    unfold SSORequestDB.is_expired. simpl. by eexists.
  - intros r1 r2 now H. unfold TokenDB.is_expired. by rewrite H.
  - intros r1 r2 now H. unfold SSORequestDB.is_expired. by rewrite H.
  - intros self e now He. unfold TokenDB.is_expired. rewrite He. simpl.
    destruct (Hgeb e now) as (H1 & H2 & H3).
    repeat split; intros H; f_equal; auto.
  - intros self e now He. unfold SSORequestDB.is_expired. rewrite He. simpl.
    destruct (Hgeb e now) as (H1 & H2 & H3).
    repeat split; intros H; f_equal; auto.
Qed.

(** *** The uid of an API key *)

(** The constructor, case by case. *)
Lemma apikey_init_eq derive_uid now values :
  ApiKeyDB.__init__ derive_uid now values
  = if ApiKeyDB.present values "user" && ApiKeyDB.present values "key_hash"
    then Ok (ApiKeyDB.mk (ApiKeyDB.user values) (ApiKeyDB.key_hash values)
               (ApiKeyDB.metadata values)
               (Some (default now (ApiKeyDB.created_at values)))
               (Some (default true (ApiKeyDB.enabled values)))
               (Some (derive_uid ResourceType.API_KEY [ApiKeyDB.key_hash values])))
    else Raise (ValidationError
                  (filter (λ n, ApiKeyDB.present values n = false) ["user"; "key_hash"])).
Proof.
  destruct values as [[[|c u]|] [[|c' k]|] md ca en ud]; vm_compute; reflexivity.
Qed.

(** C2: the uid of a constructed API key is the derivation applied to the
    resource type and the key hash, whatever else is supplied; a uid
    supplied to the constructor changes nothing; two keys with the same
    key hash have the same uid. *)
Theorem uid_derived derive_uid now values self :
  ApiKeyDB.__init__ derive_uid now values = Ok self →
  ApiKeyDB.uid self = Some (derive_uid ResourceType.API_KEY [ApiKeyDB.key_hash values])
  ∧ ApiKeyDB.key_hash self = ApiKeyDB.key_hash values
  ∧ (∀ u, ApiKeyDB.__init__ derive_uid now (with_uid values u) = Ok self)
  ∧ (∀ now' values' self',
       ApiKeyDB.__init__ derive_uid now' values' = Ok self' →
       ApiKeyDB.key_hash values' = ApiKeyDB.key_hash values →
       ApiKeyDB.uid self' = ApiKeyDB.uid self).
Proof.
  intros Hc. rewrite apikey_init_eq in Hc.
  destruct (ApiKeyDB.present values "user" && ApiKeyDB.present values "key_hash")
    eqn:Hp; [|discriminate Hc].
  injection Hc as <-. simpl. split; [done|]. split; [done|]. split.
  - intros u. rewrite apikey_init_eq.
    change (ApiKeyDB.present (with_uid values u) "user")
      with (ApiKeyDB.present values "user").
    change (ApiKeyDB.present (with_uid values u) "key_hash")
      with (ApiKeyDB.present values "key_hash").
    by rewrite Hp.
  - intros now' values' self' Hc' Hk. rewrite apikey_init_eq in Hc'.
    destruct (ApiKeyDB.present values' "user" && ApiKeyDB.present values' "key_hash");
      [|discriminate Hc'].
    injection Hc' as <-. simpl. by rewrite Hk.
Qed.

Lemma uid_derived_witness :
  ApiKeyDB.__init__ join_uid 1700000000000000%Z (with_uid alice_key (Some "chosen"))
  = Ok alice_key
  ∧ ApiKeyDB.uid alice_key = Some (join_uid ResourceType.API_KEY [Some "h1"])
  ∧ ApiKeyDB.key_hash alice_key = Some "h1"
  ∧ (∀ u, ApiKeyDB.__init__ join_uid 1700000000000000%Z
            (with_uid (with_uid alice_key (Some "chosen")) u) = Ok alice_key)
  ∧ (∀ now' values' self',
       ApiKeyDB.__init__ join_uid now' values' = Ok self' →
       ApiKeyDB.key_hash values' = Some "h1" →
       ApiKeyDB.uid self' = ApiKeyDB.uid alice_key).
Proof.
  assert (H : ApiKeyDB.__init__ join_uid 1700000000000000%Z
                (with_uid alice_key (Some "chosen")) = Ok alice_key)
    by (vm_compute; reflexivity).
  split; [exact H|].
  exact (uid_derived join_uid 1700000000000000%Z
           (with_uid alice_key (Some "chosen")) alice_key H).
Defined.

(** *** Role lookup *)

(** C6: [get_roles] hands the user and the flag to the service of the
    configured backend and returns what that call returns: the same
    roles in the same order, the same error if it raises, the world as the
    backend left it. *)
Theorem get_roles_delegates {W E RoleDB : Type}
    (get_rbac_backend : @UserDB.M W E (@UserDB.RBACBackend W E RoleDB))
    (self : UserDB.t) (include_remote : bool) (w w1 w2 : W)
    (backend : @UserDB.RBACBackend W E RoleDB)
    (service : @UserDB.RBACService W E RoleDB) :
  get_rbac_backend w = (inr backend, w1) →
  UserDB.get_service_class backend w1 = (inr service, w2) →
  UserDB.get_roles get_rbac_backend self (Some include_remote) w
  = UserDB.get_roles_for_user service self include_remote w2
  ∧ UserDB.get_roles get_rbac_backend self None w
    = UserDB.get_roles_for_user service self true w2.
Proof.
  intros Hb Hs. unfold UserDB.get_roles, UserDB.bind, UserDB.ret. rewrite Hb, Hs. simpl.
  split.
  - by destruct (UserDB.get_roles_for_user service self include_remote w2) as [[e|roles] w3].
  - by destruct (UserDB.get_roles_for_user service self true w2) as [[e|roles] w3].
Qed.

Lemma get_roles_delegates_witness :
  get_stub_backend [] = (inr stub_backend, [])
  ∧ UserDB.get_service_class stub_backend [] = (inr stub_service, [])
  ∧ UserDB.get_roles get_stub_backend alice (Some false) []
    = UserDB.get_roles_for_user stub_service alice false []
  ∧ UserDB.get_roles get_stub_backend alice None []
    = UserDB.get_roles_for_user stub_service alice true [].
Proof.
  split; [reflexivity|]. split; [reflexivity|].
  exact (get_roles_delegates get_stub_backend alice false [] [] []
           stub_backend stub_service eq_refl eq_refl).
Defined.

(** The stub run: local roles only, then local and remote, each in the
    backend's order, the call logged with the user and the flag. *)
Example get_roles_local :
  UserDB.get_roles get_stub_backend alice (Some false) []
  = (inr ["admin"; "observer"], [(alice, false)]).
Proof. reflexivity. Qed.

Example get_roles_remote :
  UserDB.get_roles get_stub_backend alice (Some true) []
  = (inr ["admin"; "observer"; "remote_auditor"], [(alice, true)]).
Proof. reflexivity. Qed.

(** An error of the backend lookup or of the service is the error of
    [get_roles]. *)
Lemma get_roles_backend_error {W E RoleDB : Type}
    (get_rbac_backend : @UserDB.M W E (@UserDB.RBACBackend W E RoleDB))
    self include_remote w e w1 :
  get_rbac_backend w = (inl e, w1) →
  UserDB.get_roles get_rbac_backend self include_remote w = (inl e, w1).
Proof. intros Hb. unfold UserDB.get_roles, UserDB.bind. by rewrite Hb. Qed.

(** Nothing is kept between calls: a second call sees the store as it is
    then. *)
Example get_roles_not_cached :
  UserDB.bind (UserDB.get_roles get_store_backend alice None) (λ before,
  UserDB.bind (grant "ops") (λ _,
  UserDB.bind (UserDB.get_roles get_store_backend alice None) (λ after,
  UserDB.ret (before, after)))) ["admin"]
  = (inr (["admin"], ["admin"; "ops"]), ["admin"; "ops"]).
Proof. reflexivity. Qed.

(* ===================================================================== *)
(** ** Further properties                                                 *)
(* ===================================================================== *)

(** *** The store after a copy *)

Lemma dict_items_onto h0
    (rec : pyval → memo_t → heap → option (pyval * memo_t * heap)) y :
  (∀ x memo h v memo' h', rec x memo h = Some (v, memo', h') →
     memo_onto h0 memo h → memo_onto h0 memo' h') →
  ∀ items memo h memo' h',
    deepcopy_dict_items rec y items memo h = Some (memo', h') →
    memo_onto h0 memo h → memo_onto h0 memo' h'.
Proof.
  intros Hrec. induction items as [|[k v] rest IH]; intros memo h memo' h' Hrun Hon.
  - simpl in Hrun. by injection Hrun as <- <-.
  - simpl in Hrun.
    destruct (rec v memo h) as [[[v1 memo1] h1]|] eqn:Hcall; [|done].
    simpl in Hrun. pose proof (Hrec _ _ _ _ _ _ Hcall Hon) as Hon1.
    destruct (h1 !! y) as [[d0|l0]|]; simpl in Hrun; try done.
    eapply IH; [exact Hrun|]. intros z Hz. rewrite length_insert in Hz. by apply Hon1.
Qed.

Lemma list_items_onto h0
    (rec : pyval → memo_t → heap → option (pyval * memo_t * heap)) y :
  (∀ x memo h v memo' h', rec x memo h = Some (v, memo', h') →
     memo_onto h0 memo h → memo_onto h0 memo' h') →
  ∀ items memo h memo' h',
    deepcopy_list_items rec y items memo h = Some (memo', h') →
    memo_onto h0 memo h → memo_onto h0 memo' h'.
Proof.
  intros Hrec. induction items as [|v rest IH]; intros memo h memo' h' Hrun Hon.
  - simpl in Hrun. by injection Hrun as <- <-.
  - simpl in Hrun.
    destruct (rec v memo h) as [[[v1 memo1] h1]|] eqn:Hcall; [|done].
    simpl in Hrun. pose proof (Hrec _ _ _ _ _ _ Hcall Hon) as Hon1.
    destruct (h1 !! y) as [[d0|l0]|]; simpl in Hrun; try done.
    eapply IH; [exact Hrun|]. intros z Hz. rewrite length_insert in Hz. by apply Hon1.
Qed.

(** Each container a copy allocates is registered in the memo. *)
Lemma deepcopy_memo_onto h0 n :
  ∀ x memo h v memo' h',
    deepcopy_memo n x memo h = Some (v, memo', h') →
    memo_onto h0 memo h → memo_onto h0 memo' h'.
Proof.
  induction n as [|n IH]; intros x memo h v memo' h' Hrun Hon; [done|].
  destruct x as [| | | |a]; simpl in Hrun; try (by injection Hrun as <- <- <-).
  destruct (memo !! a) as [y|] eqn:Hma; [by injection Hrun as <- <- <-|].
  assert (Hon1 : ∀ o, memo_onto h0 (<[a := length h]> memo) (h ++ [o])).
  { intros o z Hz. rewrite length_app in Hz. simpl in Hz.
    destruct (decide (z = length h)) as [->|Hne].
    - exists a. apply lookup_insert_eq.
    - destruct (Hon z) as [a' Ha']; [lia|]. exists a'.
      rewrite lookup_insert_ne; [done|]. intros <-. congruence. }
  destruct (h !! a) as [[d|l]|]; [| |done]; simpl in Hrun.
  - destruct (deepcopy_dict_items (deepcopy_memo n) (length h) (map_to_list d)
                (<[a := length h]> memo) (h ++ [ODict ∅])) as [[m1 h1]|] eqn:Hloop; [|done].
    simpl in Hrun. injection Hrun as <- <- <-.
    eapply dict_items_onto; [exact IH | exact Hloop | apply Hon1].
  - destruct (deepcopy_list_items (deepcopy_memo n) (length h) l
                (<[a := length h]> memo) (h ++ [OList []])) as [[m1 h1]|] eqn:Hloop; [|done].
    simpl in Hrun. injection Hrun as <- <- <-.
    eapply list_items_onto; [exact IH | exact Hloop | apply Hon1].
Qed.

(** A finished run from an empty memo, with the memo it ends with. *)
Lemma deepcopy_memo_is_copy n h x v memo h' :
  heap_ok h → val_ok (length h) x →
  deepcopy_memo n x ∅ h = Some (v, memo, h') →
  v = rename memo x ∧ val_in memo x ∧ is_copy h memo h' ∧ memo_onto h memo h'.
Proof.
  intros Hok Hx Hrun.
  assert (Hm0 : memo_ok h ∅ h).
  { split; intros a; intros; by rewrite lookup_empty in *. }
  assert (He0 : extends h h) by (split; [lia | done]).
  destruct (deepcopy_memo_spec h Hok _ _ _ _ _ _ _ Hrun) as
    ([Hlen Hsub [Hmemo Hinj] Hnew] & Hfr & Hin & ->); [done | done | done |].
  split; [done|]. split; [done|]. split.
  - split; try done.
    intros a y Hy. destruct (Hnew a y Hy) as [_ Hcp]; [apply lookup_empty | done].
  - eapply deepcopy_memo_onto; [exact Hrun|]. intros y Hy. lia.
Qed.

Lemma val_ok_mono n n' v : n ≤ n' → val_ok n v → val_ok n' v.
Proof. intros Hle. destruct v; simpl; try done. lia. Qed.

Lemma obj_ok_mono n n' o : n ≤ n' → obj_ok n o → obj_ok n' o.
Proof.
  intros Hle. destruct o as [d|l]; simpl.
  - intros H k v Hk. eapply val_ok_mono; [done|]. exact (H k v Hk).
  - intros H. eapply Forall_impl; [exact H|]. intros v. by apply val_ok_mono.
Qed.

Lemma rename_obj_ok h memo h' o :
  is_copy h memo h' → obj_in memo o → obj_ok (length h') (rename_obj memo o).
Proof.
  intros Hcp Hin.
  assert (Hv : ∀ v, val_in memo v → val_ok (length h') (rename memo v)).
  { intros [| | | |b]; simpl; try done. intros [z Hz]. rewrite Hz. simpl.
    destruct (copy_fresh _ _ _ Hcp b z Hz). lia. }
  destruct o as [d|l]; simpl in *.
  - intros k v Hk. rewrite lookup_fmap in Hk.
    destruct (d !! k) as [v0|] eqn:Hk0; simplify_eq/=. apply Hv. exact (Hin k v0 Hk0).
  - apply Forall_fmap. eapply Forall_impl; [exact Hin|]. intros v. apply Hv.
Qed.

(** A finished copy (nothing else allocated) leaves no dangling reference. *)
Lemma is_copy_heap_ok h memo h' :
  heap_ok h → is_copy h memo h' → memo_onto h memo h' → heap_ok h'.
Proof.
  intros Hok Hcp Hon. unfold heap_ok in *. rewrite Forall_lookup in Hok |- *.
  intros y o Hy. destruct (decide (y < length h)) as [Hlt|Hge].
  - rewrite (copy_frame _ _ _ Hcp y Hlt) in Hy.
    eapply obj_ok_mono; [exact (copy_length _ _ _ Hcp) | by eapply Hok].
  - destruct (Hon y) as [a Ha].
    { split; [lia | by eapply lookup_lt_Some]. }
    destruct (copy_image _ _ _ Hcp a y Ha) as (o0 & _ & Hin & Hy').
    rewrite Hy in Hy'. injection Hy' as ->. by eapply rename_obj_ok.
Qed.

Lemma setitem_atom_ok target key s h h' :
  heap_ok h → setitem target key (VStr s) h = Some h' → heap_ok h'.
Proof.
  intros Hok Hset. destruct target as [| | | |a]; simpl in Hset; try done.
  destruct (h !! a) as [[d|l]|] eqn:Ha; try done. injection Hset as <-.
  unfold heap_ok in *. rewrite length_insert. rewrite Forall_lookup in Hok |- *.
  intros y o Hy. destruct (decide (y = a)) as [->|Hne].
  - rewrite list_lookup_insert_eq in Hy; [|by eapply lookup_lt_Some].
    injection Hy as <-. simpl. intros k v Hk.
    destruct (decide (k = key)) as [->|Hk'].
    + rewrite lookup_insert_eq in Hk. by injection Hk as <-.
    + rewrite lookup_insert_ne in Hk; [|done]. exact (Hok _ _ Ha k v Hk).
  - rewrite list_lookup_insert_ne in Hy; [|done]. by eapply Hok.
Qed.

(** A whole copy, with what the memo ends as. *)
Lemma deepcopy_run h x :
  heap_ok h → val_ok (length h) x →
  ∃ memo h', deepcopy x h = Some (rename memo x, h')
             ∧ val_in memo x ∧ is_copy h memo h' ∧ memo_onto h memo h'.
Proof.
  intros Hok Hx.
  assert (Hm0 : memo_ok h ∅ h).
  { split; intros a; intros; by rewrite lookup_empty in *. }
  assert (He0 : extends h h) by (split; [lia | done]).
  destruct (deepcopy_memo_total h Hok (S (length h)) x ∅ h) as [[[v memo] h'] Hrun];
    [done | done | done | rewrite map_size_empty; lia |].
  destruct (deepcopy_memo_is_copy _ _ _ _ _ _ Hok Hx Hrun) as (-> & Hin & Hcp & Hon).
  exists memo, h'. unfold deepcopy. rewrite Hrun. done.
Qed.

Lemma mapM_fmap_comp {A B C} (f : B → option C) (g : A → B) (l : list A) :
  mapM f (g <$> l) = mapM (f ∘ g) l.
Proof.
  induction l as [|x l IH]; csimpl; [done|].
  destruct (f (g x)); [|done]. csimpl. f_equal. exact IH.
Qed.

(** A copy reads like its source, whatever the fuel. *)
Lemma reify_copy_all h memo h' :
  is_copy h memo h' →
  ∀ n v, val_in memo v → reify n h' (rename memo v) = reify n h v.
Proof.
  intros Hcp. induction n as [|n IH]; intros v Hin.
  - destruct v as [| | | |b]; simpl in *; try done.
    destruct Hin as [z Hz]. by rewrite Hz.
  - destruct v as [| | | |b]; simpl in *; try done.
    destruct Hin as [z Hz]. rewrite Hz. simpl.
    destruct (copy_image _ _ _ Hcp b z Hz) as (o & Ho & Hino & ->).
    rewrite Ho. destruct o as [d|l]; simpl in *; f_equal.
    + rewrite map_mapM_fmap. apply map_mapM_ext. intros k v Hk. simpl.
      apply IH. exact (Hino k v Hk).
    + rewrite mapM_fmap_comp. apply Forall_mapM_ext.
      eapply Forall_impl; [exact Hino|]. intros v Hv. simpl. by apply IH.
Qed.

(** *** More on [mask_secrets] *)

(** X1: whenever [copy.deepcopy] finishes within the nesting of calls
    the interpreter allows ([limit] of them), [mask_secrets] returns the
    copy, a dictionary, if its argument is a dictionary, and raises
    [TypeError] from the first item assignment, with nothing assigned, if
    its argument is a list or an atom. *)
Theorem mask_secrets_raises S self h value limit v memo h1 :
  heap_ok h → val_ok (length h) value →
  deepcopy_memo limit value ∅ h = Some (v, memo, h1) →
  ∃ out h',
    ApiKeyDB.mask_secrets S self value h = Some (out, h')
    ∧ (is_dict value h = true → out = Ok v ∧ is_dict v h' = true)
    ∧ (is_dict value h = false → out = Raise TypeError ∧ h' = h1).
Proof.
  intros Hok Hv Hlim.
  pose proof (deepcopy_any_fuel _ _ _ _ _ _ Hok Hv Hlim) as Hrun.
  destruct (deepcopy_memo_is_copy _ _ _ _ _ _ Hok Hv Hlim) as (-> & Hin & Hcp & _).
  unfold ApiKeyDB.mask_secrets. rewrite Hrun. simpl.
  destruct value as [| | | |a]; simpl in *;
    try (eexists _, _; split; [done|]; split; [done|done]).
  destruct Hin as [y Hy]. rewrite Hy. simpl.
  destruct (copy_image _ _ _ Hcp a y Hy) as (o & Ho & Hino & Hy1).
  destruct (copy_fresh _ _ _ Hcp a y Hy) as [_ [_ Hylt]].
  rewrite Ho, Hy1. destruct o as [d|l]; simpl.
  - rewrite list_lookup_insert_eq; [|done]. eexists _, _. split; [done|].
    split; [|done]. intros _. split; [done|].
    rewrite list_lookup_insert_eq; [done|]. by rewrite length_insert.
  - eexists _, _. split; [done|]. split; [done|done].
Qed.

Lemma mask_secrets_raises_witness :
  heap_ok alice_export ∧ val_ok (length alice_export) (VRef 2)
  ∧ deepcopy_memo 2 (VRef 2) ∅ alice_export
    = Some (VRef 3, {[ 2 := 3 ]}, alice_export ++ [ OList [ VStr "a"; VStr "b" ] ])
  ∧ ∃ out h',
      ApiKeyDB.mask_secrets "***" alice_key (VRef 2) alice_export = Some (out, h')
      ∧ (is_dict (VRef 2) alice_export = true →
         out = Ok (VRef 3) ∧ is_dict (VRef 3) h' = true)
      ∧ (is_dict (VRef 2) alice_export = false →
         out = Raise TypeError
         ∧ h' = alice_export ++ [ OList [ VStr "a"; VStr "b" ] ]).
Proof.
  assert (Hok : heap_ok alice_export) by (apply (bool_decide_unpack _); vm_compute; exact I).
  assert (Hx : val_ok (length alice_export) (VRef 2)) by (simpl; lia).
  assert (Hlim : deepcopy_memo 2 (VRef 2) ∅ alice_export
                 = Some (VRef 3, {[ 2 := 3 ]},
                         alice_export ++ [ OList [ VStr "a"; VStr "b" ] ]))
    by (vm_compute; reflexivity).
  split; [exact Hok|]. split; [exact Hx|]. split; [exact Hlim|].
  exact (mask_secrets_raises "***" alice_key alice_export (VRef 2) 2 _ _ _ Hok Hx Hlim).
Defined.

(** The copy of the nested export takes three nested calls (the outer
    dictionary, the inner one, an atom of the inner one); with two the
    interpreter would raise [RecursionError]. *)
Example deepcopy_limit :
  deepcopy_memo 2 (VRef 0) ∅ nested_export = None
  ∧ is_Some (deepcopy_memo 3 (VRef 0) ∅ nested_export).
Proof. split; [vm_compute; reflexivity|]. vm_compute. by eexists. Qed.

Lemma mask_secrets_run_ok S self h value out h' :
  heap_ok h → val_ok (length h) value →
  ApiKeyDB.mask_secrets S self value h = Some (out, h') →
  heap_ok h'
  ∧ length h ≤ length h'
  ∧ (∀ v, out = Ok v → val_ok (length h') v).
Proof.
  intros Hok Hv Hrun.
  destruct (deepcopy_run h value Hok Hv) as (memo & h1 & Hcopy & Hin & Hcp & Hon).
  pose proof (is_copy_heap_ok _ _ _ Hok Hcp Hon) as Hok1.
  pose proof (copy_length _ _ _ Hcp) as Hlen.
  unfold ApiKeyDB.mask_secrets in Hrun. rewrite Hcopy in Hrun. simpl in Hrun.
  destruct (setitem (rename memo value) "key_hash" (VStr S) h1) as [h2|] eqn:H2.
  2: { injection Hrun as <- <-. split; [done|]. split; [done|]. by intros v. }
  pose proof (setitem_atom_ok _ _ _ _ _ Hok1 H2) as Hok2.
  assert (Hlen2 : length h2 = length h1).
  { destruct (rename memo value) as [| | | |y]; simpl in H2; try done.
    destruct (h1 !! y) as [[d|l]|]; try done. injection H2 as <-. apply length_insert. }
  destruct (setitem (rename memo value) "uid" (VStr S) h2) as [h3|] eqn:H3.
  2: { injection Hrun as <- <-. split; [done|]. split; [lia|]. by intros v. }
  pose proof (setitem_atom_ok _ _ _ _ _ Hok2 H3) as Hok3.
  assert (Hlen3 : length h3 = length h2).
  { destruct (rename memo value) as [| | | |y]; simpl in H3; try done.
    destruct (h2 !! y) as [[d|l]|]; try done. injection H3 as <-. apply length_insert. }
  injection Hrun as <- <-. split; [done|]. split; [lia|].
  intros v [= <-]. destruct value as [| | | |a]; simpl in *; try done.
  destruct Hin as [y Hy]. rewrite Hy. simpl.
  destruct (copy_fresh _ _ _ Hcp a y Hy). lia.
Qed.

(** X2: [mask_secrets] keeps the store free of dangling references,
    whether it returns or raises, so its result can be masked, copied or
    read again. *)
Theorem mask_secrets_heap_ok S self h value :
  heap_ok h → val_ok (length h) value →
  ∃ out h',
    ApiKeyDB.mask_secrets S self value h = Some (out, h')
    ∧ heap_ok h'
    ∧ length h ≤ length h'
    ∧ (∀ v, out = Ok v → val_ok (length h') v).
Proof.
  intros Hok Hv.
  destruct (mask_secrets_total S self h value Hok Hv) as (out & h' & Hrun).
  exists out, h'. split; [done|]. by eapply mask_secrets_run_ok.
Qed.

Lemma mask_secrets_heap_ok_witness :
  heap_ok shared_export ∧ val_ok (length shared_export) (VRef 0)
  ∧ ∃ out h',
      ApiKeyDB.mask_secrets "***" alice_key (VRef 0) shared_export = Some (out, h')
      ∧ heap_ok h'
      ∧ length shared_export ≤ length h'
      ∧ (∀ v, out = Ok v → val_ok (length h') v).
Proof.
  assert (Hok : heap_ok shared_export) by (apply (bool_decide_unpack _); vm_compute; exact I).
  assert (Hx : val_ok (length shared_export) (VRef 0)) by (simpl; lia).
  split; [exact Hok|]. split; [exact Hx|].
  exact (mask_secrets_heap_ok "***" alice_key shared_export (VRef 0) Hok Hx).
Defined.

Lemma reify_atom_str n h s : reify n h (VStr s) = Some (TStr s).
Proof. by destruct n. Qed.

(** What a dictionary of the store reads as. *)
Lemma reify_dict_inv n h a d t :
  h !! a = Some (ODict d) → reify n h (VRef a) = Some t →
  ∃ m td, n = S m ∧ t = TDict td ∧ map_mapM (reify m h) d = Some td.
Proof.
  intros Ha Hr. destruct n as [|m]; [done|]. simpl in Hr. rewrite Ha in Hr.
  destruct (map_mapM (reify m h) d) as [td|] eqn:Hd; [|done].
  injection Hr as <-. by exists m, td.
Qed.

(** X3: masking a masked representation again gives a representation of
    the same content, and leaves the first one as it is. *)
Theorem mask_secrets_idempotent S self h a d :
  heap_ok h → h !! a = Some (ODict d) →
  ∃ y h' y2 h'',
    ApiKeyDB.mask_secrets S self (VRef a) h = Some (Ok (VRef y), h')
    ∧ ApiKeyDB.mask_secrets S self (VRef y) h' = Some (Ok (VRef y2), h'')
    ∧ (∀ n t, reify n h' (VRef y) = Some t → reify n h'' (VRef y2) = Some t)
    ∧ (∀ b, b < length h' → h'' !! b = h' !! b).
Proof.
  intros Hok Ha.
  assert (Hlt : a < length h) by by eapply lookup_lt_Some.
  destruct (mask_secrets_dict S self h a d Hok Ha) as (memo & y & h1 & Hy & Hcp & Hin & Hrun).
  destruct (copy_fresh _ _ _ Hcp a y Hy) as [_ [_ Hylt]].
  destruct (mask_secrets_run_ok S self h (VRef a) _ _ Hok Hlt Hrun) as (Hok' & _ & _).
  set (dm := masked S (rename memo <$> d)) in *.
  set (h' := <[y := ODict dm]> h1) in *.
  assert (Hy' : h' !! y = Some (ODict dm)) by by apply list_lookup_insert_eq.
  destruct (mask_secrets_dict S self h' y dm Hok' Hy')
    as (memo2 & y2 & h2 & Hy2 & Hcp2 & Hin2 & Hrun2).
  eexists _, _, _, _. split; [exact Hrun|]. split; [exact Hrun2|]. split.
  - intros n t Hr.
    destruct (reify_dict_inv _ _ _ _ _ Hy' Hr) as (m & td & -> & -> & Hd).
    rewrite (masked_copy_reify S h' memo2 h2 y y2 dm _ td Hcp2 Hy2 Hy' Hin2 Hr).
    do 2 f_equal.
    assert (Hk : td !! "key_hash" = Some (TStr S)).
    { rewrite (map_mapM_lookup _ _ _ "key_hash" Hd). unfold dm, masked.
      rewrite lookup_insert_ne; [|done]. rewrite lookup_insert_eq. simpl.
      apply reify_atom_str. }
    assert (Hu : td !! "uid" = Some (TStr S)).
    { rewrite (map_mapM_lookup _ _ _ "uid" Hd). unfold dm, masked.
      rewrite lookup_insert_eq. simpl. apply reify_atom_str. }
    rewrite (insert_id td "key_hash"); [|done]. by rewrite insert_id.
  - intros b Hb. destruct (copy_fresh _ _ _ Hcp2 y y2 Hy2) as [_ [Hge _]].
    rewrite list_lookup_insert_ne; [|lia]. by apply (copy_frame _ _ _ Hcp2).
Qed.

Lemma mask_secrets_idempotent_witness :
  heap_ok alice_export
  ∧ alice_export !! 0 = Some (ODict {[ "user" := VStr "alice"; "key_hash" := VStr "h1";
                                       "uid" := VStr "api_key:h1"; "enabled" := VBool true;
                                       "metadata" := VRef 1 ]})
  ∧ ∃ y h' y2 h'',
      ApiKeyDB.mask_secrets "***" alice_key (VRef 0) alice_export = Some (Ok (VRef y), h')
      ∧ ApiKeyDB.mask_secrets "***" alice_key (VRef y) h' = Some (Ok (VRef y2), h'')
      ∧ (∀ n t, reify n h' (VRef y) = Some t → reify n h'' (VRef y2) = Some t)
      ∧ (∀ b, b < length h' → h'' !! b = h' !! b).
Proof.
  assert (Hok : heap_ok alice_export) by (apply (bool_decide_unpack _); vm_compute; exact I).
  split; [exact Hok|]. split; [reflexivity|].
  exact (mask_secrets_idempotent "***" alice_key alice_export 0 _ Hok eq_refl).
Defined.

(** X4: two representations whose contents agree everywhere but on
    [key_hash] and [uid] have masked exports of the same content, in
    whatever stores and under whatever records they are masked: the
    output tells nothing about the two secrets. *)
Theorem mask_secrets_hides_secrets S self1 self2 h1 a1 d1 h2 a2 d2 n td1 td2 :
  heap_ok h1 → h1 !! a1 = Some (ODict d1) →
  heap_ok h2 → h2 !! a2 = Some (ODict d2) →
  reify n h1 (VRef a1) = Some (TDict td1) →
  reify n h2 (VRef a2) = Some (TDict td2) →
  (∀ k, k ≠ "key_hash" → k ≠ "uid" → td1 !! k = td2 !! k) →
  ∃ y1 h1' y2 h2',
    ApiKeyDB.mask_secrets S self1 (VRef a1) h1 = Some (Ok (VRef y1), h1')
    ∧ ApiKeyDB.mask_secrets S self2 (VRef a2) h2 = Some (Ok (VRef y2), h2')
    ∧ reify n h1' (VRef y1) = Some (TDict (masked_tree S td1))
    ∧ reify n h2' (VRef y2) = reify n h1' (VRef y1).
Proof.
  intros Hok1 Ha1 Hok2 Ha2 Hr1 Hr2 Hagree.
  destruct (mask_secrets_dict S self1 h1 a1 d1 Hok1 Ha1)
    as (memo1 & y1 & k1 & Hy1 & Hcp1 & Hin1 & Hrun1).
  destruct (mask_secrets_dict S self2 h2 a2 d2 Hok2 Ha2)
    as (memo2 & y2 & k2 & Hy2 & Hcp2 & Hin2 & Hrun2).
  eexists _, _, _, _. split; [exact Hrun1|]. split; [exact Hrun2|].
  rewrite (masked_copy_reify S h1 memo1 k1 a1 y1 d1 n td1 Hcp1 Hy1 Ha1 Hin1 Hr1).
  rewrite (masked_copy_reify S h2 memo2 k2 a2 y2 d2 n td2 Hcp2 Hy2 Ha2 Hin2 Hr2).
  split; [done|]. do 2 f_equal. apply map_eq. intros k.
  destruct (decide (k = "uid")) as [->|Hn1]; [by rewrite !lookup_insert_eq|].
  rewrite !(lookup_insert_ne _ "uid"); [|done|done].
  destruct (decide (k = "key_hash")) as [->|Hn2]; [by rewrite !lookup_insert_eq|].
  rewrite !lookup_insert_ne; [|done|done]. symmetry. by apply Hagree.
Qed.

Lemma mask_secrets_hides_secrets_witness :
  heap_ok alice_export
  ∧ alice_export !! 0 = Some (ODict {[ "user" := VStr "alice"; "key_hash" := VStr "h1";
                                       "uid" := VStr "api_key:h1"; "enabled" := VBool true;
                                       "metadata" := VRef 1 ]})
  ∧ heap_ok alice_second_export
  ∧ alice_second_export !! 2
    = Some (ODict {[ "user" := VStr "alice"; "key_hash" := VStr "h2";
                     "uid" := VStr "api_key:h2"; "enabled" := VBool true;
                     "metadata" := VRef 1 ]})
  ∧ reify 3 alice_export (VRef 0)
    = Some (TDict (<["key_hash" := TStr "h1"]>
                     (<["uid" := TStr "api_key:h1"]> alice_public)))
  ∧ reify 3 alice_second_export (VRef 2)
    = Some (TDict (<["key_hash" := TStr "h2"]>
                     (<["uid" := TStr "api_key:h2"]> alice_public)))
  ∧ (∀ k, k ≠ "key_hash" → k ≠ "uid" →
       (<["key_hash" := TStr "h1"]> (<["uid" := TStr "api_key:h1"]> alice_public)) !! k
       = (<["key_hash" := TStr "h2"]> (<["uid" := TStr "api_key:h2"]> alice_public)) !! k)
  ∧ ∃ y1 h1' y2 h2',
      ApiKeyDB.mask_secrets "***" alice_key (VRef 0) alice_export
      = Some (Ok (VRef y1), h1')
      ∧ ApiKeyDB.mask_secrets "***" alice_key (VRef 2) alice_second_export
        = Some (Ok (VRef y2), h2')
      ∧ reify 3 h1' (VRef y1)
        = Some (TDict (masked_tree "***"
                         (<["key_hash" := TStr "h1"]>
                            (<["uid" := TStr "api_key:h1"]> alice_public))))
      ∧ reify 3 h2' (VRef y2) = reify 3 h1' (VRef y1).
Proof.
  assert (Hok1 : heap_ok alice_export) by (apply (bool_decide_unpack _); vm_compute; exact I).
  assert (Hok2 : heap_ok alice_second_export)
    by (apply (bool_decide_unpack _); vm_compute; exact I).
  assert (Hr1 : reify 3 alice_export (VRef 0)
                = Some (TDict (<["key_hash" := TStr "h1"]>
                                 (<["uid" := TStr "api_key:h1"]> alice_public))))
    by (vm_compute; reflexivity).
  assert (Hr2 : reify 3 alice_second_export (VRef 2)
                = Some (TDict (<["key_hash" := TStr "h2"]>
                                 (<["uid" := TStr "api_key:h2"]> alice_public))))
    by (vm_compute; reflexivity).
  assert (Hag : ∀ k, k ≠ "key_hash" → k ≠ "uid" →
       (<["key_hash" := TStr "h1"]> (<["uid" := TStr "api_key:h1"]> alice_public)) !! k
       = (<["key_hash" := TStr "h2"]> (<["uid" := TStr "api_key:h2"]> alice_public)) !! k).
  { intros k H1 H2. by rewrite !lookup_insert_ne. }
  split; [exact Hok1|]. split; [reflexivity|]. split; [exact Hok2|].
  split; [reflexivity|]. split; [exact Hr1|]. split; [exact Hr2|]. split; [exact Hag|].
  exact (mask_secrets_hides_secrets "***" alice_key alice_key
           alice_export 0 _ alice_second_export 2 _ 3 _ _
           Hok1 eq_refl Hok2 eq_refl Hr1 Hr2 Hag).
Defined.

(** X5: the copy [mask_secrets] returns keeps the sharing of its input:
    two fields hold the same container in the output exactly when they do
    in the input, and a field holds the output itself exactly when it
    holds the input itself in the input. *)
Theorem mask_secrets_sharing S self h a d k1 k2 b1 b2 :
  heap_ok h → h !! a = Some (ODict d) →
  k1 ≠ "key_hash" → k1 ≠ "uid" → k2 ≠ "key_hash" → k2 ≠ "uid" →
  d !! k1 = Some (VRef b1) → d !! k2 = Some (VRef b2) →
  ∃ y h' c1 c2,
    ApiKeyDB.mask_secrets S self (VRef a) h = Some (Ok (VRef y), h')
    ∧ getitem (VRef y) k1 h' = Some (VRef c1)
    ∧ getitem (VRef y) k2 h' = Some (VRef c2)
    ∧ (c1 = c2 ↔ b1 = b2)
    ∧ (c1 = y ↔ b1 = a).
Proof.
  intros Hok Ha Hk1 Hk1' Hk2 Hk2' Hd1 Hd2.
  destruct (mask_secrets_dict S self h a d Hok Ha) as (memo & y & h1 & Hy & Hcp & Hin & Hrun).
  destruct (copy_fresh _ _ _ Hcp a y Hy) as [_ [_ Hylt]].
  destruct (Hin k1 _ Hd1) as [c1 Hc1]. destruct (Hin k2 _ Hd2) as [c2 Hc2].
  eexists y, _, c1, c2. split; [exact Hrun|].
  assert (Hget : ∀ k b c, k ≠ "key_hash" → k ≠ "uid" → d !! k = Some (VRef b) →
                   memo !! b = Some c →
                   getitem (VRef y) k (<[y := ODict (masked S (rename memo <$> d))]> h1)
                   = Some (VRef c)).
  { intros k b c Hn1 Hn2 Hk Hb. unfold getitem.
    rewrite list_lookup_insert_eq; [|done]. unfold masked.
    rewrite !lookup_insert_ne; [|done|done]. rewrite lookup_fmap, Hk. simpl.
    by rewrite Hb. }
  split; [by eapply Hget|]. split; [by eapply Hget|]. split; split.
  - intros ->. by eapply (copy_inj _ _ _ Hcp).
  - intros ->. congruence.
  - intros ->. by eapply (copy_inj _ _ _ Hcp).
  - intros ->. congruence.
Qed.

Lemma mask_secrets_sharing_witness :
  heap_ok shared_export
  ∧ shared_export !! 0
    = Some (ODict {[ "first" := VRef 1; "second" := VRef 1; "other" := VRef 2;
                     "self" := VRef 0 ]})
  ∧ "first" ≠ "key_hash" ∧ "first" ≠ "uid" ∧ "other" ≠ "key_hash" ∧ "other" ≠ "uid"
  ∧ ({[ "first" := VRef 1; "second" := VRef 1; "other" := VRef 2;
        "self" := VRef 0 ]} : gmap string pyval) !! "first" = Some (VRef 1)
  ∧ ({[ "first" := VRef 1; "second" := VRef 1; "other" := VRef 2;
        "self" := VRef 0 ]} : gmap string pyval) !! "other" = Some (VRef 2)
  ∧ ∃ y h' c1 c2,
      ApiKeyDB.mask_secrets "***" alice_key (VRef 0) shared_export = Some (Ok (VRef y), h')
      ∧ getitem (VRef y) "first" h' = Some (VRef c1)
      ∧ getitem (VRef y) "other" h' = Some (VRef c2)
      ∧ (c1 = c2 ↔ 1 = 2)
      ∧ (c1 = y ↔ 1 = 0).
Proof.
  assert (Hok : heap_ok shared_export) by (apply (bool_decide_unpack _); vm_compute; exact I).
  split; [exact Hok|]. split; [reflexivity|].
  split; [done|]. split; [done|]. split; [done|]. split; [done|].
  split; [reflexivity|]. split; [reflexivity|].
  exact (mask_secrets_sharing "***" alice_key shared_export 0 _ "first" "other" 1 2
           Hok eq_refl ltac:(done) ltac:(done) ltac:(done) ltac:(done) eq_refl eq_refl).
Defined.

(** X6: masking is one level deep: a dictionary nested under another
    field is copied with its atoms as they are, a [key_hash] or [uid]
    among them included. *)
Theorem mask_secrets_shallow S self h a d k b sub :
  heap_ok h → h !! a = Some (ODict d) →
  k ≠ "key_hash" → k ≠ "uid" →
  d !! k = Some (VRef b) → b ≠ a → h !! b = Some (ODict sub) →
  ∃ y h' c,
    ApiKeyDB.mask_secrets S self (VRef a) h = Some (Ok (VRef y), h')
    ∧ getitem (VRef y) k h' = Some (VRef c)
    ∧ (∀ k' v, sub !! k' = Some v →
         match v with
         | VRef _ => ∃ c', getitem (VRef c) k' h' = Some (VRef c')
         | atom => getitem (VRef c) k' h' = Some atom
         end)
    ∧ (∀ k', sub !! k' = None → getitem (VRef c) k' h' = None).
Proof.
  intros Hok Ha Hk1 Hk2 Hd Hba Hb.
  destruct (mask_secrets_dict S self h a d Hok Ha) as (memo & y & h1 & Hy & Hcp & Hin & Hrun).
  destruct (copy_fresh _ _ _ Hcp a y Hy) as [_ [_ Hylt]].
  destruct (Hin k _ Hd) as [c Hc].
  assert (Hcy : c ≠ y).
  { intros ->. apply Hba. by eapply (copy_inj _ _ _ Hcp). }
  destruct (copy_image _ _ _ Hcp b c Hc) as (o & Ho & Hino & Hc1).
  rewrite Hb in Ho. injection Ho as <-. simpl in Hino, Hc1.
  eexists y, _, c. split; [exact Hrun|]. split.
  { unfold getitem. rewrite list_lookup_insert_eq; [|done]. unfold masked.
    rewrite !lookup_insert_ne; [|done|done]. rewrite lookup_fmap, Hd. simpl.
    by rewrite Hc. }
  assert (Hsub : ∀ k', getitem (VRef c) k'
                         (<[y := ODict (masked S (rename memo <$> d))]> h1)
                       = rename memo <$> sub !! k').
  { intros k'. unfold getitem. rewrite list_lookup_insert_ne; [|done].
    rewrite Hc1. apply lookup_fmap. }
  split.
  - intros k' v Hv. rewrite Hsub, Hv. simpl.
    pose proof (Hino k' v Hv) as Hvin.
    destruct v as [| | | |b']; try done. simpl in Hvin |- *.
    destruct Hvin as [c' Hc']. rewrite Hc'. by exists c'.
  - intros k' Hn. by rewrite Hsub, Hn.
Qed.

Lemma mask_secrets_shallow_witness :
  heap_ok nested_export
  ∧ nested_export !! 0
    = Some (ODict {[ "user" := VStr "alice"; "key_hash" := VStr "h2";
                     "uid" := VStr "api_key:h2"; "previous" := VRef 1 ]})
  ∧ "previous" ≠ "key_hash" ∧ "previous" ≠ "uid"
  ∧ ({[ "user" := VStr "alice"; "key_hash" := VStr "h2";
        "uid" := VStr "api_key:h2"; "previous" := VRef 1 ]} : gmap string pyval)
      !! "previous" = Some (VRef 1)
  ∧ 1 ≠ 0
  ∧ nested_export !! 1
    = Some (ODict {[ "key_hash" := VStr "h1"; "uid" := VStr "api_key:h1" ]})
  ∧ ∃ y h' c,
      ApiKeyDB.mask_secrets "***" alice_key (VRef 0) nested_export = Some (Ok (VRef y), h')
      ∧ getitem (VRef y) "previous" h' = Some (VRef c)
      ∧ (∀ k' v,
           ({[ "key_hash" := VStr "h1"; "uid" := VStr "api_key:h1" ]}
              : gmap string pyval) !! k' = Some v →
           match v with
           | VRef _ => ∃ c', getitem (VRef c) k' h' = Some (VRef c')
           | atom => getitem (VRef c) k' h' = Some atom
           end)
      ∧ (∀ k',
           ({[ "key_hash" := VStr "h1"; "uid" := VStr "api_key:h1" ]}
              : gmap string pyval) !! k' = None →
           getitem (VRef c) k' h' = None).
Proof.
  assert (Hok : heap_ok nested_export) by (apply (bool_decide_unpack _); vm_compute; exact I).
  split; [exact Hok|]. split; [reflexivity|]. split; [done|]. split; [done|].
  split; [reflexivity|]. split; [done|]. split; [reflexivity|].
  exact (mask_secrets_shallow "***" alice_key nested_export 0 _ "previous" 1 _
           Hok eq_refl ltac:(done) ltac:(done) eq_refl ltac:(done) eq_refl).
Defined.

(** The nested key hash of the sample is in the masked export. *)
Example mask_secrets_nested :
  ∃ h', ApiKeyDB.mask_secrets "***" alice_key (VRef 0) nested_export = Some (Ok (VRef 2), h')
        ∧ getitem (VRef 2) "key_hash" h' = Some (VStr "***")
        ∧ getitem (VRef 2) "previous" h' = Some (VRef 3)
        ∧ getitem (VRef 3) "key_hash" h' = Some (VStr "h1").
Proof. eexists. split; [vm_compute; reflexivity|]. by vm_compute. Qed.

(** *** More on the constructor of an API key *)

(** X8: a record the constructor returned goes through the constructor
    again unchanged, at any later time and with its own uid supplied: the
    uid it carries is the one its fields derive. *)
Theorem apikey_reinit derive_uid now now' values self :
  ApiKeyDB.__init__ derive_uid now values = Ok self →
  ApiKeyDB.__init__ derive_uid now' self = Ok self
  ∧ ApiKeyDB.uid self = Some (ApiKeyDB.get_uid derive_uid self).
Proof.
  intros Hc.
  destruct values as [[[|c u]|] [[|c' k]|] md ca en ud];
    vm_compute in Hc; try discriminate Hc.
  injection Hc as <-. split; vm_compute; reflexivity.
Qed.

Lemma apikey_reinit_witness :
  ApiKeyDB.__init__ join_uid 1700000000000000%Z (with_uid alice_key (Some "chosen"))
  = Ok alice_key
  ∧ ApiKeyDB.__init__ join_uid 1800000000000000%Z alice_key = Ok alice_key
  ∧ ApiKeyDB.uid alice_key = Some (ApiKeyDB.get_uid join_uid alice_key).
Proof.
  assert (H : ApiKeyDB.__init__ join_uid 1700000000000000%Z
                (with_uid alice_key (Some "chosen")) = Ok alice_key)
    by (vm_compute; reflexivity).
  split; [exact H|].
  exact (apikey_reinit join_uid 1700000000000000%Z 1800000000000000%Z
           (with_uid alice_key (Some "chosen")) alice_key H).
Defined.

(** *** More on role lookup *)

(** X9: [get_roles] raises exactly the errors of the three calls it
    makes, each as it is and with the world as the failing call left it:
    a failing backend lookup ends it before the service class is asked
    for, a failing service class before any role is looked up; it raises
    no error of its own. *)
Theorem get_roles_errors {W E RoleDB : Type}
    (get_rbac_backend : @UserDB.M W E (@UserDB.RBACBackend W E RoleDB))
    (self : UserDB.t) (include_remote : option bool) (w : W) :
  (∀ e w1, get_rbac_backend w = (inl e, w1) →
     UserDB.get_roles get_rbac_backend self include_remote w = (inl e, w1))
  ∧ (∀ backend w1 e w2,
       get_rbac_backend w = (inr backend, w1) →
       UserDB.get_service_class backend w1 = (inl e, w2) →
       UserDB.get_roles get_rbac_backend self include_remote w = (inl e, w2))
  ∧ (∀ backend w1 service w2 e w3,
       get_rbac_backend w = (inr backend, w1) →
       UserDB.get_service_class backend w1 = (inr service, w2) →
       UserDB.get_roles_for_user service self (default true include_remote) w2
       = (inl e, w3) →
       UserDB.get_roles get_rbac_backend self include_remote w = (inl e, w3))
  ∧ (∀ e w',
       UserDB.get_roles get_rbac_backend self include_remote w = (inl e, w') →
       get_rbac_backend w = (inl e, w')
       ∨ (∃ backend w1, get_rbac_backend w = (inr backend, w1)
            ∧ (UserDB.get_service_class backend w1 = (inl e, w')
               ∨ ∃ service w2,
                   UserDB.get_service_class backend w1 = (inr service, w2)
                   ∧ UserDB.get_roles_for_user service self
                       (default true include_remote) w2 = (inl e, w')))).
Proof.
  unfold UserDB.get_roles, UserDB.bind, UserDB.ret.
  split; [|split; [|split]].
  - intros e w1 Hb. by rewrite Hb.
  - intros backend w1 e w2 Hb Hs. by rewrite Hb, Hs.
  - intros backend w1 service w2 e w3 Hb Hs Hr. by rewrite Hb, Hs, Hr.
  - intros e w'. destruct (get_rbac_backend w) as [[e1|backend] w1] eqn:Hb.
    { intros [= -> ->]. by left. }
    destruct (UserDB.get_service_class backend w1) as [[e2|service] w2] eqn:Hs.
    { intros [= -> ->]. right. exists backend, w1. split; [done|]. by left. }
    destruct (UserDB.get_roles_for_user service self (default true include_remote) w2)
      as [[e3|roles] w3] eqn:Hr; [|done].
    intros [= -> ->]. right. exists backend, w1. split; [done|]. right.
    by exists service, w2.
Qed.

(** X10: with a configuration whose lookups change nothing, two calls of
    [get_roles] in a row are two calls of the service in the same order,
    each with its own flag, the second in the world the first one left:
    no answer is kept from one call to the next. *)
Theorem get_roles_twice_calls {W E RoleDB : Type}
    (get_rbac_backend : @UserDB.M W E (@UserDB.RBACBackend W E RoleDB))
    (self : UserDB.t) (first second : bool)
    (backend : @UserDB.RBACBackend W E RoleDB)
    (service : @UserDB.RBACService W E RoleDB) :
  (∀ w, get_rbac_backend w = (inr backend, w)) →
  (∀ w, UserDB.get_service_class backend w = (inr service, w)) →
  ∀ w,
    get_roles_twice get_rbac_backend self (Some first) (Some second) w
    = UserDB.bind (UserDB.get_roles_for_user service self first) (λ r1,
      UserDB.bind (UserDB.get_roles_for_user service self second) (λ r2,
      UserDB.ret (r1, r2))) w.
Proof.
  intros Hb Hs w. unfold get_roles_twice, UserDB.get_roles, UserDB.bind, UserDB.ret.
  simpl. rewrite Hb, Hs.
  destruct (UserDB.get_roles_for_user service self first w) as [[e|r1] w1]; [done|].
  rewrite Hb, Hs.
  by destruct (UserDB.get_roles_for_user service self second w1) as [[e|r2] w2].
Qed.

Lemma get_roles_twice_calls_witness :
  (∀ w, get_stub_backend w = (inr stub_backend, w))
  ∧ (∀ w, UserDB.get_service_class stub_backend w = (inr stub_service, w))
  ∧ ∀ w,
      get_roles_twice get_stub_backend alice (Some false) (Some true) w
      = UserDB.bind (UserDB.get_roles_for_user stub_service alice false) (λ r1,
        UserDB.bind (UserDB.get_roles_for_user stub_service alice true) (λ r2,
        UserDB.ret (r1, r2))) w.
Proof.
  split; [reflexivity|]. split; [reflexivity|].
  exact (get_roles_twice_calls get_stub_backend alice false true
           stub_backend stub_service (λ w, eq_refl) (λ w, eq_refl)).
Defined.

(** The two calls against the logging stub: two entries in the log. *)
Example get_roles_twice_logged :
  get_roles_twice get_stub_backend alice (Some false) (Some true) []
  = (inr (["admin"; "observer"], ["admin"; "observer"; "remote_auditor"]),
     [(alice, false); (alice, true)]).
Proof. reflexivity. Qed.

(** *** More on the declarations *)

(** X11: the declarations of the four classes fit together: no class
    declares a field name twice, every field with a uniqueness constraint
    is required, every required flag has a default; the indexes of the API
    key and its uid fields name fields the class declares. *)
Theorem declarations_consistent :
  Forall (λ cls, well_declared cls.2) MODELS
  ∧ Forall (Forall (declared ApiKeyDB.fields)) ApiKeyDB.meta_indexes
  ∧ Forall (declared ApiKeyDB.fields) ApiKeyDB.UID_FIELDS.
Proof.
  split; [|split].
  - repeat constructor; simpl;
      try (apply (bool_decide_unpack _); vm_compute; exact I).
  - repeat constructor; apply (bool_decide_unpack _); vm_compute; exact I.
  - repeat constructor; apply (bool_decide_unpack _); vm_compute; exact I.
Qed.

(** X12: the two members of [SSORequestDB.Type] have different values, so
    neither is an alias of the other; looking a member up by its value
    gives the member back, and a value is found only if it is the value of
    the member found. *)
Theorem Type_round_trip :
  (∀ ty, Type_of_value (SSORequestDB.Type_value ty) = Some ty)
  ∧ (∀ value ty, Type_of_value value = Some ty → SSORequestDB.Type_value ty = value)
  ∧ (∀ ty1 ty2, SSORequestDB.Type_value ty1 = SSORequestDB.Type_value ty2 → ty1 = ty2)
  ∧ (∀ value, value ≠ "cli" → value ≠ "web" → Type_of_value value = None).
Proof.
  split; [|split; [|split]].
  - by intros [].
  - intros value ty. unfold Type_of_value. repeat case_decide; by intros [= <-].
  - by intros [] [].
  - intros value H1 H2. unfold Type_of_value. simpl. by repeat case_decide.
Qed.
